(** * Protocol decoders of libsigrokdecode: PWM and IR IRMP

    A shallow embedding of [decoders/pwm/pd.py] and [decoders/ir_irmp/pd.py]
    together with the properties their specification states about them.

    Conventions of the embedding.
    - Python integers are [Z].
    - Python floats are idealised as exact rationals ([Q]): every float
      operation is read as the exact operation on the value it denotes.  The
      decoders only divide sample counts, multiply by constants and compare
      with powers of ten, so the idealisation is the arithmetic the code
      intends; rounding errors of binary64 are outside the model.  The text
      of a period is also given on binary64 floats ([period_s_binary64]),
      to evaluate it at given periods as Python does.
    - A decoder method that can raise is a computation in the monad [M], which
      threads the records passed to [self.put] (they stay emitted when a later
      statement raises) and the outcome: a value or a Python exception.
    - [self.wait] belongs to the host engine, which is not part of the
      decoders' sources.  It is modelled from the specification of the sample
      cursor: a decode run is driven by the list of wake-ups the cursor
      delivers for a finite sample stream, and the run ends silently when the
      stream is exhausted. *)

From Stdlib Require Import ZArith QArith Qround Qabs String Ascii List Bool Lia.
From Stdlib Require Import DecimalString HexadecimalString.
From Stdlib Require Import PrimFloat SpecFloat FloatOps.
Import ListNotations.

Set Warnings "-inexact-float".

Local Open Scope Z_scope.

(** ** Python formatting primitives *)

Module Py.

Local Open Scope string_scope.

(** [str.join] *)
Fixpoint join (sep : string) (l : list string) : string :=
  match l with
  | [] => ""
  | [s] => s
  | s :: l' => s ++ sep ++ join sep l'
  end.

(** Left padding with ['0'] up to [width] characters. *)
Fixpoint zeros (n : nat) : string :=
  match n with
  | O => ""
  | S n' => String "0" (zeros n')
  end.

Definition zfill (width : nat) (s : string) : string :=
  zeros (width - String.length s) ++ s.

(** ['{:d}'] of an integer. *)
Definition format_d (z : Z) : string :=
  DecimalString.NilZero.string_of_int (Z.to_int z).

(** ['{:x}'] and ['{:0<width>x}'] of an integer: lower-case hexadecimal
    digits of the magnitude, the sign in front, zero padding between the
    sign and the digits up to the total width. *)
Definition hex_digits (z : Z) : string :=
  HexadecimalString.NilZero.string_of_uint (N.to_hex_uint (Z.abs_N z)).

Definition format_0x (width : nat) (z : Z) : string :=
  if (z <? 0)%Z then "-" ++ zfill (width - 1) (hex_digits z)
  else zfill width (hex_digits z).

Definition format_x (z : Z) : string := format_0x 0 z.

(** [int(x)] of a float: truncation towards zero. *)
Definition int_of_float (q : Q) : Z :=
  if Qle_bool 0 q then Qfloor q else Qceiling q.

(** Rounding to the nearest integer, ties to even: the rounding of the
    ['%f'] conversions. *)
Definition round_half_even (q : Q) : Z :=
  let f := Qfloor q in
  match (q - inject_Z f ?= 1 # 2)%Q with
  | Lt => f
  | Gt => (f + 1)%Z
  | Eq => if Z.even f then f else (f + 1)%Z
  end.

(** ['%.<prec>f' % q] *)
Definition format_f (prec : nat) (q : Q) : string :=
  let scale := (10 ^ Z.of_nat prec)%Z in
  let m := round_half_even (Qabs q * inject_Z scale) in
  let sign := if Qle_bool 0 q then "" else "-" in
  let frac :=
    match prec with
    | O => ""
    | _ => "." ++ zfill prec (format_d (m mod scale)%Z)
    end in
  sign ++ format_d (m / scale)%Z ++ frac.

End Py.

(** ** The host engine *)

Module Engine.

(** Python exceptions a decode run can end with. *)
Inductive exn : Set :=
| SamplerateError
| AttributeError
| TypeError
| ZeroDivisionError
| ValueError
| IndexError.

(** Records handed to [self.put], by output stream. *)
Inductive output : Type :=
| Annotation (ss es : Z) (cls : Z) (texts : list string)
| Binary (ss es : Z) (cls : Z) (payload : list Z)
| Meta (ss es : Z) (value : Q).

Inductive outcome (A : Type) : Type :=
| Returned (a : A)
| Raised (e : exn).
Arguments Returned {A} a.
Arguments Raised {A} e.

(** Emitted records so far, and how the computation ended. *)
Definition M (A : Type) : Type := (list output * outcome A)%type.

Definition ret {A} (a : A) : M A := ([], Returned a).

Definition raise {A} (e : exn) : M A := ([], Raised e).

Definition bind {A B} (m : M A) (f : A -> M B) : M B :=
  match m with
  | (out, Raised e) => (out, Raised e)
  | (out, Returned a) =>
      match f a with
      | (out', r) => (out ++ out', r)
      end
  end.

Definition put (o : output) : M unit := ([o], Returned tt).

(** Reading an attribute that still holds [None] where a number is needed. *)
Definition number {A} (e : exn) (v : option A) : M A :=
  match v with
  | Some a => ret a
  | None => raise e
  end.

Definition emitted {A} (m : M A) : list output := fst m.
Definition result {A} (m : M A) : outcome A := snd m.

(** One return of [self.wait]: the sample number and the pin value. *)
Definition wakeup : Type := (Z * Z)%type.

(** Modelled from the spec: the sample cursor's edge condition
    ([self.wait({0: 'e'})]), which is code of the host engine.  It is
    satisfied on the first sample whose value differs from the immediately
    preceding sample; sample 0 has no predecessor.  [edges_from prev pos l]
    lists the wake-ups of repeated edge waits over the samples [l] that
    start at index [pos], [prev] being the sample before them. *)
Fixpoint edges_from (prev : bool) (pos : Z) (l : list bool) : list wakeup :=
  match l with
  | [] => []
  | b :: l' =>
      if Bool.eqb b prev then edges_from prev (pos + 1) l'
      else (pos, Z.b2z b) :: edges_from b (pos + 1) l'
  end.

Definition wait_edges (samples : list bool) : list wakeup :=
  match samples with
  | [] => []
  | b :: l => edges_from b 1 l
  end.

(** Modelled from the spec: the cursor's unconditional wait
    ([self.wait()], which returns the first sample) followed by repeated
    skip-N waits ([self.wait([{'skip': n}])], satisfied after exactly [n]
    samples have elapsed), code of the host engine.  [skips_from n c pos l]
    lists the wake-ups over the samples [l] starting at index [pos] when
    [c] more samples have to elapse before the next one. *)
Fixpoint skips_from (n : nat) (c : nat) (pos : Z) (l : list bool)
  : list wakeup :=
  match l with
  | [] => []
  | b :: l' =>
      match c with
      | O => (pos, Z.b2z b) :: skips_from n (Nat.pred n) (pos + 1) l'
      | S c' => skips_from n c' (pos + 1) l'
      end
  end.

Definition wait_skips (n : Z) (samples : list bool) : list wakeup :=
  skips_from (Z.to_nat n) 0 0 samples.

End Engine.

Import Engine.

Declare Scope decoder_scope.
Delimit Scope decoder_scope with dec.
Notation "x <- m ;; k" := (bind m (fun x => k))
  (at level 61, m at next level, right associativity) : decoder_scope.
Notation "m ;;; k" := (bind m (fun _ => k))
  (at level 61, right associativity) : decoder_scope.

(** ** [decoders/pwm/pd.py] *)

Module Pwm.

Local Open Scope decoder_scope.

(** Values of the ['polarity'] option. *)
Inductive polarity : Set :=
| active_low
| active_high.

(** Keys of the metadata callback. *)
Inductive conf_key : Set :=
| SRD_CONF_SAMPLERATE
| SRD_CONF_OTHER.

(** The attributes of a [Decoder] instance.  [None] is Python's [None]; for
    [samplerate], which [__init__] does not assign, [None] stands for the
    attribute that [metadata] never set.  [startedge] is assigned by
    [start], which the engine calls before [decode]; until then the field
    holds 0. *)
Record Decoder : Type := mkDecoder {
  ss_block : option Z;
  es_block : option Z;
  first_samplenum : option Z;
  start_samplenum : option Z;
  end_samplenum : option Z;
  num_cycles : Z;
  average : Q;
  samplerate : option Z;
  startedge : Z
}.

(** [__init__] *)
Definition init : Decoder :=
  {| ss_block := None; es_block := None;
     first_samplenum := None; start_samplenum := None;
     end_samplenum := None;
     num_cycles := 0; average := 0;
     samplerate := None; startedge := 0 |}.

(** [metadata] *)
Definition metadata (d : Decoder) (key : conf_key) (value : Z) : Decoder :=
  match key with
  | SRD_CONF_SAMPLERATE =>
      {| ss_block := ss_block d; es_block := es_block d;
         first_samplenum := first_samplenum d;
         start_samplenum := start_samplenum d;
         end_samplenum := end_samplenum d;
         num_cycles := num_cycles d; average := average d;
         samplerate := Some value; startedge := startedge d |}
  | SRD_CONF_OTHER => d
  end.

(** [start]: only the attribute the decoder computes itself is kept, the
    output registrations are the constructors of [output]. *)
Definition start (d : Decoder) (pol : polarity) : Decoder :=
  {| ss_block := ss_block d; es_block := es_block d;
     first_samplenum := first_samplenum d;
     start_samplenum := start_samplenum d;
     end_samplenum := end_samplenum d;
     num_cycles := num_cycles d; average := average d;
     samplerate := samplerate d;
     startedge := match pol with active_low => 0 | active_high => 1 end |}.

(** [putx] *)
Definition putx (d : Decoder) (cls : Z) (texts : list string) : M unit :=
  ss <- number TypeError (ss_block d) ;;
  es <- number TypeError (es_block d) ;;
  put (Annotation ss es cls texts).

(** The text [putp] builds: the granularity cascade. *)
Definition period_s (period_t : Q) : string :=
  if Qeq_bool period_t 0 || Qle_bool 1 period_t then
    (Py.format_f 1 period_t ++ " s")%string
  else if Qle_bool period_t (1 # 10 ^ 12) then
    (Py.format_f 1 (period_t * inject_Z (10 ^ 15)) ++ " fs")%string
  else if Qle_bool period_t (1 # 10 ^ 9) then
    (Py.format_f 1 (period_t * inject_Z (10 ^ 12)) ++ " ps")%string
  else if Qle_bool period_t (1 # 10 ^ 6) then
    (Py.format_f 1 (period_t * inject_Z (10 ^ 9)) ++ " ns")%string
  else if Qle_bool period_t (1 # 10 ^ 3) then
    (Py.format_f 1 (period_t * inject_Z (10 ^ 6)) ++ " μs")%string
  else
    (Py.format_f 1 (period_t * inject_Z (10 ^ 3)) ++ " ms")%string.

(** [putp] *)
Definition putp (d : Decoder) (period_t : Q) : M unit :=
  ss <- number TypeError (ss_block d) ;;
  es <- number TypeError (es_block d) ;;
  put (Annotation ss es 1 [period_s period_t]).

(** [putb]: both positions are the cycle counter. *)
Definition putb (d : Decoder) (cls : Z) (payload : list Z) : M unit :=
  put (Binary (num_cycles d) (num_cycles d) cls payload).

(** [bytes([v])]: one byte, or [ValueError] outside [range(0, 256)]. *)
Definition bytes1 (v : Z) : M (list Z) :=
  if (0 <=? v) && (v <? 256) then ret [v] else raise ValueError.

(** True division of two integers. *)
Definition truediv (a b : Z) : M Q :=
  if b =? 0 then raise ZeroDivisionError
  else ret (inject_Z a / inject_Z b)%Q.

(** The body of the [while True] loop of [decode], for the wake-up at
    sample [samplenum] with pin value [pin]. *)
Definition on_edge (d : Decoder) (samplenum pin : Z) : M Decoder :=
  if pin =? startedge d then
    (* Rising edge *)
    start_sn <- number TypeError (start_samplenum d) ;;
    let period := samplenum - start_sn in
    end_sn <- number TypeError (end_samplenum d) ;;
    let duty := end_sn - start_sn in
    ratio <- truediv duty period ;;
    let d1 :=
      {| ss_block := start_samplenum d; es_block := Some samplenum;
         first_samplenum := first_samplenum d;
         start_samplenum := Some samplenum;
         end_samplenum := end_samplenum d;
         num_cycles := num_cycles d; average := average d;
         samplerate := samplerate d; startedge := startedge d |} in
    let percent := (ratio * 100)%Q in
    putx d1 0 [(Py.format_f 6 percent ++ "%")%string] ;;;
    payload <- bytes1 (Py.int_of_float (ratio * 256)) ;;
    putb d1 0 payload ;;;
    rate <- number AttributeError (samplerate d1) ;;
    period_t <- truediv period rate ;;
    putp d1 period_t ;;;
    let d2 :=
      {| ss_block := ss_block d1; es_block := es_block d1;
         first_samplenum := first_samplenum d1;
         start_samplenum := start_samplenum d1;
         end_samplenum := end_samplenum d1;
         num_cycles := num_cycles d1 + 1;
         average := (average d1 + percent)%Q;
         samplerate := samplerate d1; startedge := startedge d1 |} in
    first <- number TypeError (first_samplenum d2) ;;
    es <- number TypeError (es_block d2) ;;
    put (Meta first es (average d2 / inject_Z (num_cycles d2))%Q) ;;;
    ret d2
  else
    (* Falling edge *)
    ret {| ss_block := Some samplenum; es_block := es_block d;
           first_samplenum := first_samplenum d;
           start_samplenum := start_samplenum d;
           end_samplenum := Some samplenum;
           num_cycles := num_cycles d; average := average d;
           samplerate := samplerate d; startedge := startedge d |}.

(** The [while True] loop over the wake-ups the cursor still delivers. *)
Fixpoint loop (d : Decoder) (ws : list wakeup) : M Decoder :=
  match ws with
  | [] => ret d
  | (samplenum, pin) :: ws' =>
      d' <- on_edge d samplenum pin ;;
      loop d' ws'
  end.

(** The two assignments after the first edge(s). *)
Definition begin_at (d : Decoder) (samplenum : Z) : Decoder :=
  {| ss_block := ss_block d; es_block := es_block d;
     first_samplenum := Some samplenum;
     start_samplenum := Some samplenum;
     end_samplenum := end_samplenum d;
     num_cycles := num_cycles d; average := average d;
     samplerate := samplerate d; startedge := startedge d |}.

(** [decode], driven by the wake-ups of its edge waits.  A wait that the
    stream cannot satisfy any more ends the run where it stands. *)
Definition decode (d : Decoder) (ws : list wakeup) : M Decoder :=
  match ws with
  | [] => ret d
  | (samplenum, pin) :: ws1 =>
      if negb (pin =? startedge d) then
        match ws1 with
        | [] => ret d
        | (samplenum', _) :: ws2 => loop (begin_at d samplenum') ws2
        end
      else loop (begin_at d samplenum) ws1
  end.

(** A whole run: construction, optional sample rate metadata, [start] with
    the polarity option, [decode] over the sample stream. *)
Definition configure (rate : option Z) (pol : polarity) : Decoder :=
  start (match rate with
         | Some r => metadata init SRD_CONF_SAMPLERATE r
         | None => init
         end) pol.

Definition run (rate : option Z) (pol : polarity) (samples : list bool)
  : M Decoder :=
  decode (configure rate pol) (wait_edges samples).



End Pwm.

(** ** [decoders/ir_irmp/pd.py] *)

Module IrIrmp.

Local Open Scope decoder_scope.

Inductive polarity : Set :=
| active_low
| active_high.

Inductive conf_key : Set :=
| SRD_CONF_SAMPLERATE
| SRD_CONF_OTHER.

(** The dictionary [get_result_data] returns. *)
Record ProtocolResult : Type := mkResult {
  proto_nr : Z;
  proto_name : string;
  address : Z;
  command : Z;
  repeat : bool;
  release : bool;
  start : Z;
  end_ : Z  (* data['end'] *)
}.

(** The interface of [irmp_library.IrmpLibrary], whose implementation is a
    native library outside the decoder: a stateful object, here with its
    state of type [L] passed explicitly. *)
Class IrmpLibrary (L : Type) : Type := {
  get_sample_rate : L -> Z;
  reset_state : L -> L;
  add_one_sample : L -> Z -> L * bool;
  get_result_data : L -> ProtocolResult
}.

(** The vocabularies of [putframe]. *)
Definition rep_txts : list string :=
  ["repeat"; "rep"; "r"]%string.
Definition rel_txts : list string :=
  ["release"; "rel"; "R"]%string.

(** A list subscript: [IndexError] out of range. *)
Definition subscript {A} (l : list A) (i : nat) : M A :=
  number IndexError (nth_error l i).

(** The body of [for zoom in range(len(flag_txts))]: the flag words of one
    zoom level. *)
Definition flags_at (rep rel : bool) (zoom : nat) : M (list string) :=
  t1 <- (if rep then w <- subscript rep_txts zoom ;; ret [w]
         else ret []) ;;
  t2 <- (if rel then w <- subscript rel_txts zoom ;; ret (t1 ++ [w])
         else ret t1) ;;
  ret t2.

Fixpoint for_each {A B} (f : A -> M B) (l : list A) : M (list B) :=
  match l with
  | [] => ret []
  | a :: l' =>
      b <- f a ;;
      bs <- for_each f l' ;;
      ret (b :: bs)
  end.

(** [' '.join(t) or '-'] *)
Definition join_or_dash (t : list string) : string :=
  let s := Py.join " " t in
  if String.eqb s "" then "-"%string else s.

(** [flag_txts] after the comprehension: one text per zoom level, as many
    as [rep_txts] has entries. *)
Definition flag_txts (rep rel : bool) : M (list string) :=
  ts <- for_each (flags_at rep rel) (seq 0 (List.length rep_txts)) ;;
  ret (map join_or_dash ts).

(** The five format strings of [txts].  Each one is the text up to its
    [{flg[i]}] field, which ends it, and the index [i] it refers to; the
    last one has no flag field. *)
Definition tiers (data : ProtocolResult) : list (string * option nat) :=
  let nr := Py.format_d (proto_nr data) in
  let name := proto_name data in
  let addr := address data in
  let cmd := command data in
  [ ("Protocol: " ++ name ++ " (" ++ nr ++ "), Address 0x"
       ++ Py.format_0x 4 addr ++ ", Command: 0x" ++ Py.format_0x 4 cmd
       ++ ", Flags: ", Some 0%nat);
    ("P: " ++ name ++ " (" ++ nr ++ "), Addr: 0x" ++ Py.format_x addr
       ++ ", Cmd: 0x" ++ Py.format_x cmd ++ ", Flg: ", Some 1%nat);
    ("P: " ++ nr ++ " A: 0x" ++ Py.format_x addr ++ " C: 0x"
       ++ Py.format_x cmd ++ " F: ", Some 1%nat);
    ("C:" ++ Py.format_x cmd ++ " A:" ++ Py.format_x addr ++ " ",
       Some 2%nat);
    ("C:" ++ Py.format_x cmd, None) ]%string.

(** [str.format] of one of them with the local variables. *)
Definition render (flg : list string) (t : string * option nat) : M string :=
  match snd t with
  | Some i => f <- subscript flg i ;; ret (fst t ++ f)%string
  | None => ret (fst t)
  end.

Section WithLibrary.

Context {L : Type} {lib : IrmpLibrary L}.

(** The attributes of a [Decoder] instance.  [samplerate], [rate_factor]
    and [active] are not assigned by [__init__]: [None] stands for the
    missing attribute. *)
Record Decoder : Type := mkDecoder {
  irmp : L;
  lib_rate : Z;
  samplerate : option Z;
  rate_factor : option Z;
  active : option Z
}.

(** [__init__], from a freshly constructed library object, and [reset]. *)
Definition init (fresh : L) : Decoder :=
  {| irmp := reset_state fresh; lib_rate := get_sample_rate fresh;
     samplerate := None; rate_factor := None; active := None |}.

(** [metadata] *)
Definition metadata (d : Decoder) (key : conf_key) (value : Z)
  : Decoder :=
  match key with
  | SRD_CONF_SAMPLERATE =>
      {| irmp := irmp d; lib_rate := lib_rate d;
         samplerate := Some value;
         rate_factor := rate_factor d; active := active d |}
  | SRD_CONF_OTHER => d
  end.

(** [putframe] *)
Definition putframe (d : Decoder) (data : ProtocolResult) : M unit :=
  factor <- number AttributeError (rate_factor d) ;;
  let ss := start data * factor in
  let es := end_ data * factor in
  flg <- flag_txts (repeat data) (release data) ;;
  txts <- for_each (render flg) (tiers data) ;;
  put (Annotation ss es 0 txts).

(** The [while True] loop: one iteration per wake-up. *)
Fixpoint loop (d : Decoder) (ws : list wakeup) : M Decoder :=
  match ws with
  | [] => ret d
  | (_, ir) :: ws' =>
      act <- number AttributeError (active d) ;;
      let ir := if act =? 1 then 1 - ir else ir in
      let fed := add_one_sample (irmp d) ir in
      let d' :=
        {| irmp := fst fed; lib_rate := lib_rate d;
           samplerate := samplerate d;
           rate_factor := rate_factor d; active := active d |} in
      (if snd fed then putframe d' (get_result_data (irmp d'))
       else ret tt) ;;;
      loop d' ws'
  end.

(** [decode] over the sample stream the cursor reads. *)
Definition decode (d : Decoder) (pol : polarity) (samples : list bool)
  : M Decoder :=
  rate <- number AttributeError (samplerate d) ;;
  if rate =? 0 then raise SamplerateError
  else if lib_rate d =? 0 then raise ZeroDivisionError
  else if negb (rate mod lib_rate d =? 0) then raise SamplerateError
  else
    let factor :=
      Py.int_of_float (inject_Z rate / inject_Z (lib_rate d)) in
    let d' :=
      {| irmp := irmp d; lib_rate := lib_rate d;
         samplerate := samplerate d;
         rate_factor := Some factor;
         active := Some match pol with
                        | active_low => 0
                        | active_high => 1
                        end |} in
    loop d' (wait_skips factor samples).

(** A whole run: construction, optional sample rate metadata, decode. *)
Definition configure (fresh : L) (rate : option Z) : Decoder :=
  match rate with
  | Some r => metadata (init fresh) SRD_CONF_SAMPLERATE r
  | None => init fresh
  end.

Definition run (fresh : L) (rate : option Z) (pol : polarity)
           (samples : list bool) : M Decoder :=
  decode (configure fresh rate) pol samples.

End WithLibrary.

Arguments Decoder L : clear implicits.

(** A small library instance to run the decoder on: it counts the samples
    fed at level 0 and reports a frame at every third one; the frame spans
    the last three library samples. *)
Record toy_state : Type := mkToy { fed_count : Z; low_count : Z }.

#[export] Instance toy_library : IrmpLibrary toy_state := {
  get_sample_rate := fun _ => 20000;
  reset_state := fun _ => mkToy 0 0;
  add_one_sample := fun st bit =>
    let lows := if bit =? 0 then low_count st + 1 else low_count st in
    (mkToy (fed_count st + 1) lows,
     (bit =? 0) && (lows mod 3 =? 0));
  get_result_data := fun st =>
    {| proto_nr := 2; proto_name := "NEC";
       address := 255; command := 4660;
       repeat := Z.even (low_count st); release := false;
       start := fed_count st - 3; end_ := fed_count st |}
}.

End IrIrmp.

(** ** Vocabulary of the properties *)

(** Selecting records of one output stream, in emission order. *)
Definition annotations (cls : Z) (outs : list output)
  : list (Z * Z * list string) :=
  flat_map (fun o =>
    match o with
    | Annotation ss es c texts => if c =? cls then [(ss, es, texts)] else []
    | _ => []
    end) outs.

Definition binaries (outs : list output) : list (Z * Z * list Z) :=
  flat_map (fun o =>
    match o with
    | Binary ss es _ payload => [(ss, es, payload)]
    | _ => []
    end) outs.

Definition metas (outs : list output) : list (Z * Z * Q) :=
  flat_map (fun o =>
    match o with
    | Meta ss es v => [(ss, es, v)]
    | _ => []
    end) outs.

(** The sample range of a selected record. *)
Definition span {A} (r : Z * Z * A) : Z * Z := (fst (fst r), snd (fst r)).

(** Each range starts where the one before it ended. *)
Definition contiguous (l : list (Z * Z)) : Prop :=
  forall k a b,
    nth_error l k = Some a -> nth_error l (S k) = Some b -> fst b = snd a.

Module PwmSpec.

(** A full cycle of the measured signal: a start-polarity edge, the
    opposite edge that follows it, and the next start-polarity edge. *)
Record cycle : Type := mkCycle { c_start : Z; c_fall : Z; c_next : Z }.

Definition period (c : cycle) : Z := c_next c - c_start c.
Definition duty (c : cycle) : Z := c_fall c - c_start c.

(** The pin value of the edge that starts a cycle. *)
Definition edge_of (pol : Pwm.polarity) : Z :=
  match pol with
  | Pwm.active_low => 0
  | Pwm.active_high => 1
  end.

(** The full cycles among the edges of a signal: every window of three
    consecutive edges that begins and ends with the start polarity. *)
Fixpoint cycles_from (p : Z) (ws : list wakeup) : list cycle :=
  match ws with
  | [] => []
  | (s, ps) :: ws' =>
      match ws' with
      | (e, _) :: (s', ps') :: _ =>
          if (ps =? p) && (ps' =? p)
          then mkCycle s e s' :: cycles_from p ws'
          else cycles_from p ws'
      | _ => []
      end
  end.

Definition full_cycles (pol : Pwm.polarity) (samples : list bool)
  : list cycle :=
  cycles_from (edge_of pol) (wait_edges samples).

(** The sample numbers of the edges of polarity [p] among wake-ups. *)
Definition starts (p : Z) (ws : list wakeup) : list Z :=
  map fst (filter (fun w => snd w =? p) ws).

(** The sample numbers of the start-polarity edges of a signal. *)
Definition start_edges (pol : Pwm.polarity) (samples : list bool) : list Z :=
  starts (edge_of pol) (wait_edges samples).

Definition first_start_edge (pol : Pwm.polarity) (samples : list bool) : Z :=
  hd 0 (start_edges pol samples).

(** The duty cycle of a full cycle, as a ratio and in percent. *)
Definition ratio (c : cycle) : Q := inject_Z (duty c) / inject_Z (period c).
Definition percent (c : cycle) : Q := inject_Z (100 * duty c) / inject_Z (period c).

Definition Qsum (l : list Q) : Q := fold_right Qplus 0%Q l.



(** The records one run emits for the full cycles [cs], the [k] cycles
    before them having percentages that add up to [avg]: per cycle the
    duty-cycle annotation, the binary record, the period annotation and the
    meta record, in this order. *)
Fixpoint cycle_records (rate first k : Z) (avg : Q) (cs : list cycle)
  : list output :=
  match cs with
  | [] => []
  | c :: cs' =>
      let pct := (ratio c * 100)%Q in
      Annotation (c_start c) (c_next c) 0
        [(Py.format_f 6 pct ++ "%")%string]
      :: Binary k k 0 [Py.int_of_float (ratio c * 256)]
      :: Annotation (c_start c) (c_next c) 1
           [Pwm.period_s (inject_Z (period c) / inject_Z rate)]
      :: Meta first (c_next c) ((avg + pct) / inject_Z (k + 1))
      :: cycle_records rate first (k + 1) (avg + pct)%Q cs'
  end.

(** Edges as the cursor delivers them: strictly increasing sample numbers,
    pin values that flip at every edge.  [alternating n pin ws] also ties
    the list to the edge before it, at sample [n] with value [pin]. *)
Inductive alternating : Z -> Z -> list wakeup -> Prop :=
| alternating_nil : forall n pin, alternating n pin []
| alternating_cons : forall n pin n' ws,
    n < n' ->
    alternating n' (1 - pin) ws ->
    alternating n pin ((n', 1 - pin) :: ws).

Definition cycle_span (c : cycle) : Z * Z := (c_start c, c_next c).

(** Cycles in a row from the sample [s] on: each has its opposite edge
    strictly inside, and starts where the one before it ended. *)
Fixpoint chained (s : Z) (cs : list cycle) : Prop :=
  match cs with
  | [] => True
  | c :: cs' =>
      c_start c = s /\ c_start c < c_fall c < c_next c
      /\ chained (c_next c) cs'
  end.


(** The state of the loop between two edges: measuring with start edge
    [p] from the start sample [s], the first start edge having been at
    [f], at the sample rate [r]. *)
Definition measuring (d : Pwm.Decoder) (p s f r : Z) : Prop :=
  Pwm.startedge d = p /\ Pwm.start_samplenum d = Some s
  /\ Pwm.first_samplenum d = Some f /\ Pwm.samplerate d = Some r.

(** A periodic square wave: [lead] samples at the idle level, [n] periods
    of [hi] samples at the active level followed by [lo] samples at the idle
    level, and one more active sample, whose edge ends the last period.  The
    active level is the one the start edge leads to. *)
Definition active_level (pol : Pwm.polarity) : bool :=
  match pol with
  | Pwm.active_low => false
  | Pwm.active_high => true
  end.

Fixpoint periods (a : bool) (hi lo n : nat) : list bool :=
  match n with
  | O => []
  | S n' => List.repeat a hi ++ List.repeat (negb a) lo ++ periods a hi lo n'
  end.

Definition square_wave (pol : Pwm.polarity) (lead hi lo n : nat)
  : list bool :=
  List.repeat (negb (active_level pol)) lead
  ++ periods (active_level pol) hi lo n ++ [active_level pol].

(** Its edges and its full cycles, from the first start edge at [pos]. *)
Fixpoint wave_edges (pin pos hi lo : Z) (n : nat) : list wakeup :=
  match n with
  | O => [(pos, pin)]
  | S n' =>
      (pos, pin) :: (pos + hi, 1 - pin)
      :: wave_edges pin (pos + hi + lo) hi lo n'
  end.

Fixpoint wave_cycles (pos hi lo : Z) (n : nat) : list cycle :=
  match n with
  | O => []
  | S n' =>
      mkCycle pos (pos + hi) (pos + hi + lo)
      :: wave_cycles (pos + hi + lo) hi lo n'
  end.

(** Sample inputs. *)

(** Low for 2 samples, then periods of 3 high + 1 low, 1 high + 3 low and
    1 high + 1 low, and a final rising edge. *)
Definition wave : list bool :=
  [false; false; true; true; true; false; true; false; false; false;
   true; false; true].

(** A signal that idles high: its first edge is a falling one. *)
Definition idle_high_wave : list bool :=
  [true; true; false; false; true; true; true; false; true; false].



End PwmSpec.

Module IrmpSpec.

Import IrIrmp.

(** The bit handed to the library for a raw pin value. *)
Definition level (pol : polarity) (ir : Z) : Z :=
  match pol with
  | active_low => ir
  | active_high => 1 - ir
  end.

(** Feeding a sequence of bits to the library: its final state and the
    results it reported ready on the way. *)
Fixpoint feed {L} {lib : IrmpLibrary L} (st : L) (bits : list Z)
  : L * list ProtocolResult :=
  match bits with
  | [] => (st, [])
  | b :: bits' =>
      let fed := add_one_sample st b in
      let rest := feed (fst fed) bits' in
      (fst rest,
       if snd fed then get_result_data (fst fed) :: snd rest
       else snd rest)
  end.

(** The flag text a tier ends with, given the text of each zoom level. *)
Definition tier_text (flg : list string) (t : string * option nat)
  : string :=
  match snd t with
  | Some i => (fst t ++ nth i flg "")%string
  | None => fst t
  end.

(** The texts of the zoom levels for a pair of flags. *)
Definition flag_words (rep rel : bool) : list string :=
  map (fun zoom =>
         join_or_dash
           ((if rep then [nth zoom rep_txts ""%string] else [])
            ++ (if rel then [nth zoom rel_txts ""%string] else [])))
      (seq 0 3).

(** The annotation of a frame under a rate factor. *)
Definition frame_record (factor : Z) (data : ProtocolResult) : output :=
  Annotation (start data * factor) (end_ data * factor) 0
    (map (tier_text (flag_words (repeat data) (release data)))
         (tiers data)).

Definition sample_frame : ProtocolResult :=
  {| proto_nr := 2; proto_name := "NEC"; address := 255; command := 4660;
     repeat := true; release := false; start := 10; end_ := 40 |}.

Definition sample_decoder : Decoder toy_state :=
  {| irmp := mkToy 0 0; lib_rate := 20000; samplerate := Some 40000;
     rate_factor := Some 2; active := Some 0 |}.

Definition other_polarity (pol : polarity) : polarity :=
  match pol with
  | active_low => active_high
  | active_high => active_low
  end.

Definition ir_samples : list bool :=
  [false; true; true; true; false; false; true; false; false; true;
   false; true; false; false; true; true].

(** The same samples at the even positions, others in between. *)
Definition ir_samples_between : list bool :=
  [false; false; true; false; false; true; true; true; false; false;
   false; false; false; true; true; false].

End IrmpSpec.

(** ** Vocabulary of further properties of the runs *)

Module RunSpec.

Import PwmSpec.

(** The exception of the expression [period / self.samplerate] when the
    sample rate is missing or zero. *)
Definition rate_error (rate : option Z) : exn :=
  match rate with
  | None => AttributeError
  | Some _ => ZeroDivisionError
  end.

(** Applying a function to the value a computation returns. *)
Definition on_result {A B} (f : A -> B) (m : M A) : M B :=
  (emitted m,
   match result m with
   | Returned a => Returned (f a)
   | Raised e => Raised e
   end).

(** The other polarity, the inverted signal and its edges. *)
Definition opposite (pol : Pwm.polarity) : Pwm.polarity :=
  match pol with
  | Pwm.active_low => Pwm.active_high
  | Pwm.active_high => Pwm.active_low
  end.

Definition invert (samples : list bool) : list bool := map negb samples.

Definition flip_edge (w : wakeup) : wakeup := (fst w, 1 - snd w).

Definition flip_startedge (d : Pwm.Decoder) : Pwm.Decoder :=
  {| Pwm.ss_block := Pwm.ss_block d; Pwm.es_block := Pwm.es_block d;
     Pwm.first_samplenum := Pwm.first_samplenum d;
     Pwm.start_samplenum := Pwm.start_samplenum d;
     Pwm.end_samplenum := Pwm.end_samplenum d;
     Pwm.num_cycles := Pwm.num_cycles d; Pwm.average := Pwm.average d;
     Pwm.samplerate := Pwm.samplerate d;
     Pwm.startedge := 1 - Pwm.startedge d |}.

(** The same signal [k] samples later: [k] more copies of its first sample
    in front. *)
Definition delay (k : nat) (samples : list bool) : list bool :=
  match samples with
  | [] => []
  | b :: l => b :: List.repeat b k ++ l
  end.

Definition shift_edge (k : Z) (w : wakeup) : wakeup := (fst w + k, snd w).

Definition shift_cycle (k : Z) (c : cycle) : cycle :=
  mkCycle (c_start c + k) (c_fall c + k) (c_next c + k).

(** A record [k] samples later: annotations and meta records move, binary
    records, which sit at the cycle counter, do not. *)
Definition shift_output (k : Z) (o : output) : output :=
  match o with
  | Annotation ss es cls texts => Annotation (ss + k) (es + k) cls texts
  | Binary ss es cls payload => Binary ss es cls payload
  | Meta ss es v => Meta (ss + k) (es + k) v
  end.

End RunSpec.

(** * Properties *)

(** ** The monad *)

Section MonadLaws.

Context {A B : Type}.

Lemma bind_ret (a : A) (f : A -> M B) : bind (ret a) f = f a.
Proof. unfold bind, ret. now destruct (f a). Qed.

Lemma bind_emitted (m : M A) (f : A -> M B) (out : list output) (a : A) :
  m = (out, Returned a) ->
  bind m f = (out ++ emitted (f a), result (f a)).
Proof. intros ->. unfold bind, emitted, result. now destruct (f a). Qed.

End MonadLaws.

(** ** Formatting respects the value of a rational *)



(** [int(x)] of a non-negative quotient is the integer quotient. *)
Lemma int_of_float_quotient (a b : Z) :
  0 <= a -> 0 < b ->
  Py.int_of_float (inject_Z a / inject_Z b) = a / b.
Proof.
  intros Ha Hb. unfold Py.int_of_float.
  assert (Hq : (0 <= inject_Z a / inject_Z b)%Q).
  { apply Qle_shift_div_l.
    - change 0%Q with (inject_Z 0). now rewrite <- Zlt_Qlt.
    - rewrite Qmult_0_l. change 0%Q with (inject_Z 0). now rewrite <- Zle_Qle. }
  apply Qle_bool_iff in Hq. rewrite Hq.
  symmetry. apply Zdiv_Qdiv.
Qed.

Lemma ratio_scaled (a b k : Z) :
  0 < b ->
  (inject_Z a / inject_Z b * inject_Z k == inject_Z (k * a) / inject_Z b)%Q.
Proof.
  intros Hb. rewrite inject_Z_mult. field.
  change 0%Q with (inject_Z 0). rewrite inject_Z_injective. lia.
Qed.

(** The byte of a duty below the period: no clamping is needed. *)
Lemma byte_of_ratio (dty per : Z) :
  0 <= dty < per ->
  Py.int_of_float (inject_Z dty / inject_Z per * 256) = 256 * dty / per
  /\ 0 <= 256 * dty / per <= 255.
Proof.
  intros H. split.
  - assert (E : (inject_Z dty / inject_Z per * 256
                 == inject_Z (256 * dty) / inject_Z per)%Q)
      by (apply (ratio_scaled dty per 256); lia).
    unfold Py.int_of_float.
    rewrite (Qfloor_comp _ _ E), (Qceiling_comp _ _ E).
    assert (E' : Qle_bool 0 (inject_Z dty / inject_Z per * 256)
                 = Qle_bool 0 (inject_Z (256 * dty) / inject_Z per))
      by now rewrite E.
    rewrite E'. apply int_of_float_quotient; lia.
  - split.
    + apply Z.div_pos; lia.
    + apply Z.lt_succ_r. apply Z.div_lt_upper_bound; lia.
Qed.

(** ** The duty-cycle machine, one edge at a time *)

Import PwmSpec.

Ltac pwm_fields :=
  cbn [Pwm.ss_block Pwm.es_block Pwm.first_samplenum Pwm.start_samplenum
       Pwm.end_samplenum Pwm.num_cycles Pwm.average Pwm.samplerate
       Pwm.startedge] in *.

Ltac monad_steps :=
  cbn [bind ret raise put number emitted result fst snd app].

Lemma on_edge_falling (d : Pwm.Decoder) (n pin : Z) :
  pin <> Pwm.startedge d ->
  Pwm.on_edge d n pin =
  ret {| Pwm.ss_block := Some n; Pwm.es_block := Pwm.es_block d;
         Pwm.first_samplenum := Pwm.first_samplenum d;
         Pwm.start_samplenum := Pwm.start_samplenum d;
         Pwm.end_samplenum := Some n;
         Pwm.num_cycles := Pwm.num_cycles d; Pwm.average := Pwm.average d;
         Pwm.samplerate := Pwm.samplerate d;
         Pwm.startedge := Pwm.startedge d |}.
Proof.
  intros H. unfold Pwm.on_edge.
  apply Z.eqb_neq in H. now rewrite H.
Qed.

(** A start edge that closes a cycle with the opposite edge strictly before
    it: the four records of the cycle, and the state for the next one. *)
Lemma on_edge_cycle (d : Pwm.Decoder) (n s e f r : Z) :
  Pwm.start_samplenum d = Some s ->
  Pwm.end_samplenum d = Some e ->
  Pwm.first_samplenum d = Some f ->
  Pwm.samplerate d = Some r ->
  r <> 0 ->
  s <= e < n ->
  Pwm.on_edge d n (Pwm.startedge d) =
  (cycle_records r f (Pwm.num_cycles d) (Pwm.average d) [mkCycle s e n],
   Returned
     {| Pwm.ss_block := Some s; Pwm.es_block := Some n;
        Pwm.first_samplenum := Some f;
        Pwm.start_samplenum := Some n;
        Pwm.end_samplenum := Some e;
        Pwm.num_cycles := Pwm.num_cycles d + 1;
        Pwm.average := (Pwm.average d + ratio (mkCycle s e n) * 100)%Q;
        Pwm.samplerate := Some r;
        Pwm.startedge := Pwm.startedge d |}).
Proof.
  intros Hs He Hf Hr Hr0 Hord.
  destruct (byte_of_ratio (e - s) (n - s)) as [Hb Hrange]; [lia|].
  unfold Pwm.on_edge, Pwm.putx, Pwm.putp, Pwm.putb, Pwm.truediv, Pwm.bytes1.
  pwm_fields. rewrite Z.eqb_refl, Hs, He, Hf, Hr.
  monad_steps.
  replace (n - s =? 0) with false by (symmetry; apply Z.eqb_neq; lia).
  replace (r =? 0) with false by (symmetry; now apply Z.eqb_neq).
  monad_steps.
  rewrite Hb.
  replace (0 <=? 256 * (e - s) / (n - s)) with true
    by (symmetry; apply Z.leb_le; lia).
  replace (256 * (e - s) / (n - s) <? 256) with true
    by (symmetry; apply Z.ltb_lt; lia).
  cbn [andb]. monad_steps.
  unfold cycle_records, ratio, period, duty. cbn [c_start c_fall c_next].
  rewrite Hb. reflexivity.
Qed.

Lemma loop_cons (d : Pwm.Decoder) (n pin : Z) (ws : list wakeup) :
  Pwm.loop d ((n, pin) :: ws)
  = bind (Pwm.on_edge d n pin) (fun d' => Pwm.loop d' ws).
Proof. reflexivity. Qed.

(** ** Edges of a sample stream *)

Lemma b2z_flip (b prev : bool) :
  Bool.eqb b prev = false -> Z.b2z b = 1 - Z.b2z prev.
Proof. now destruct b, prev. Qed.

Lemma edges_from_alternating (l : list bool) :
  forall prev pos n,
    n < pos -> alternating n (Z.b2z prev) (edges_from prev pos l).
Proof.
  induction l as [|b l IH]; intros prev pos n Hn; cbn [edges_from].
  - constructor.
  - destruct (Bool.eqb b prev) eqn:E.
    + apply IH. lia.
    + rewrite (b2z_flip _ _ E). constructor; [exact Hn|].
      rewrite <- (b2z_flip _ _ E). apply IH. lia.
Qed.



(** ** Full cycles of alternating edges *)

Lemma cycles_from_skip (p s e n : Z) (ws : list wakeup) :
  e <> p ->
  cycles_from p ((s, e) :: (n, p) :: ws) = cycles_from p ((n, p) :: ws).
Proof.
  intros H. apply Z.eqb_neq in H.
  destruct ws as [|[n' p'] ws]; [reflexivity|].
  cbn [cycles_from]. now rewrite H.
Qed.

Lemma cycles_from_start (p s e n : Z) (pe : Z) (ws : list wakeup) :
  cycles_from p ((s, p) :: (e, pe) :: (n, p) :: ws)
  = mkCycle s e n :: cycles_from p ((e, pe) :: (n, p) :: ws).
Proof. cbn [cycles_from]. now rewrite Z.eqb_refl. Qed.

(** ** A run of the duty-cycle machine, cycle by cycle *)

Lemma alternating_inv (n pin n' pin' : Z) (ws : list wakeup) :
  alternating n pin ((n', pin') :: ws) ->
  n < n' /\ pin' = 1 - pin /\ alternating n' pin' ws.
Proof.
  intros H. inversion H as [|? ? ? ? Hlt Halt]. subst.
  repeat split; assumption.
Qed.

Lemma loop_cycles (p f r : Z) :
  r <> 0 ->
  forall ws,
    (forall d s,
        measuring d p s f r -> alternating s p ws ->
        exists d',
          Pwm.loop d ws
          = (cycle_records r f (Pwm.num_cycles d) (Pwm.average d)
               (cycles_from p ((s, p) :: ws)), Returned d'))
    /\ (forall d s e,
           measuring d p s f r -> Pwm.end_samplenum d = Some e -> s < e ->
           alternating e (1 - p) ws ->
           exists d',
             Pwm.loop d ws
             = (cycle_records r f (Pwm.num_cycles d) (Pwm.average d)
                  (cycles_from p ((s, p) :: (e, 1 - p) :: ws)),
                Returned d')).
Proof.
  intros Hr. induction ws as [|[n pin] ws [IH1 IH2]]; split.
  - intros d s _ _. exists d. reflexivity.
  - intros d s e _ _ _ _. exists d. reflexivity.
  - intros d s (Hp & Hs & Hf & Hrate) Halt.
    apply alternating_inv in Halt as (Hlt & -> & Halt').
    rewrite loop_cons, on_edge_falling by lia.
    rewrite bind_ret.
    match goal with
    | |- context [Pwm.loop ?d1 ws] =>
        destruct (IH2 d1 s n) as [d' Hloop];
        [repeat split; assumption | reflexivity | lia | assumption |]
    end.
    exists d'. rewrite Hloop. reflexivity.
  - intros d s e (Hp & Hs & Hf & Hrate) He Hse Halt.
    apply alternating_inv in Halt as (Hlt & -> & Halt').
    subst p.
    replace (1 - (1 - Pwm.startedge d)) with (Pwm.startedge d) in * by lia.
    rewrite loop_cons.
    rewrite (on_edge_cycle d n s e f r) by (assumption || lia).
    match goal with
    | |- context [Returned ?d2] =>
        destruct (IH1 d2 n) as [d' Hloop];
        [repeat split; reflexivity | assumption |]
    end.
    exists d'.
    erewrite bind_emitted by reflexivity.
    rewrite Hloop. pwm_fields. cbn [emitted result fst snd].
    rewrite cycles_from_start, cycles_from_skip by lia.
    reflexivity.
Qed.

Lemma edge_of_bit (pol : Pwm.polarity) : edge_of pol = 0 \/ edge_of pol = 1.
Proof. destruct pol; [now left | now right]. Qed.

Lemma measuring_begin_at (d : Pwm.Decoder) (n r : Z) :
  Pwm.samplerate d = Some r ->
  measuring (Pwm.begin_at d n) (Pwm.startedge d) n n r.
Proof. intros H. repeat split; assumption. Qed.

(** [decode] on alternating edges, in closed form. *)
Lemma decode_cycles (d : Pwm.Decoder) (p r n0 pin0 : Z) (ws : list wakeup) :
  Pwm.startedge d = p -> Pwm.samplerate d = Some r -> r <> 0 ->
  p = 0 \/ p = 1 -> pin0 = 0 \/ pin0 = 1 ->
  alternating n0 pin0 ws ->
  exists d',
    Pwm.decode d ws
    = (cycle_records r
         (hd 0 (starts p ws))
         (Pwm.num_cycles d) (Pwm.average d) (cycles_from p ws),
       Returned d').
Proof.
  intros Hp Hrate Hr Hpbit Hbit Halt.
  destruct ws as [|[n1 p1] ws1]; [exists d; reflexivity|].
  apply alternating_inv in Halt as (Hlt1 & Hp1 & Halt1).
  unfold starts. cbn [Pwm.decode filter snd]. rewrite Hp.
  destruct (Z.eqb_spec p1 p) as [-> | Hne]; cbn [negb map fst hd].
  - destruct (proj1 (loop_cycles p n1 r Hr ws1) (Pwm.begin_at d n1) n1)
      as [d' Hloop]; [subst p; now apply measuring_begin_at | assumption |].
    exists d'. exact Hloop.
  - destruct ws1 as [|[n2 p2] ws2]; [exists d; reflexivity|].
    apply alternating_inv in Halt1 as (Hlt2 & Hp2 & Halt2).
    assert (E : p2 = p) by lia. clear Hp2. subst p2.
    cbn [filter snd]. rewrite Z.eqb_refl. cbn [map fst hd].
    rewrite cycles_from_skip by assumption.
    destruct (proj1 (loop_cycles p n2 r Hr ws2) (Pwm.begin_at d n2) n2)
      as [d' Hloop]; [subst p; now apply measuring_begin_at | assumption |].
    exists d'. exact Hloop.
Qed.

Lemma wait_edges_bits (samples : list bool) :
  exists pin, (pin = 0 \/ pin = 1) /\ alternating 0 pin (wait_edges samples).
Proof.
  destruct samples as [|b l].
  - exists 0. split; [now left | constructor].
  - exists (Z.b2z b). split.
    + destruct b; [now right | now left].
    + apply edges_from_alternating. lia.
Qed.

(** The run on a sample stream, in closed form: it never raises, and its
    records are those of the full cycles of the signal. *)
Lemma run_cycles (rate : Z) (pol : Pwm.polarity) (samples : list bool) :
  rate <> 0 ->
  exists d',
    Pwm.run (Some rate) pol samples
    = (cycle_records rate (first_start_edge pol samples) 0 0
         (full_cycles pol samples), Returned d').
Proof.
  intros Hr.
  destruct (wait_edges_bits samples) as (pin0 & Hbit & Halt).
  apply (decode_cycles (Pwm.configure (Some rate) pol) (edge_of pol) rate
           0 pin0 (wait_edges samples)); try assumption.
  - now destruct pol.
  - reflexivity.
  - apply edge_of_bit.
Qed.

(** ** The shape of the full cycles *)

Lemma flip_neq (p : Z) : 1 - p <> p.
Proof. lia. Qed.

Lemma starts_skip (p n pin : Z) (ws : list wakeup) :
  pin <> p -> starts p ((n, pin) :: ws) = starts p ws.
Proof.
  intros H. apply Z.eqb_neq in H. unfold starts. cbn [filter snd].
  now rewrite H.
Qed.

Lemma starts_keep (p n : Z) (ws : list wakeup) :
  starts p ((n, p) :: ws) = n :: starts p ws.
Proof. unfold starts. cbn [filter snd]. now rewrite Z.eqb_refl. Qed.

(** From a start edge on, the cycles are chained, and their ranges pair up
    consecutive start edges. *)
Lemma cycles_chained_from (p : Z) (ws : list wakeup) :
  (forall s,
      alternating s p ws ->
      chained s (cycles_from p ((s, p) :: ws))
      /\ map cycle_span (cycles_from p ((s, p) :: ws))
         = combine (s :: starts p ws) (starts p ws))
  /\ (forall s e,
         s < e -> alternating e (1 - p) ws ->
         chained s (cycles_from p ((s, p) :: (e, 1 - p) :: ws))
         /\ map cycle_span (cycles_from p ((s, p) :: (e, 1 - p) :: ws))
            = combine (s :: starts p ws) (starts p ws)).
Proof.
  induction ws as [|[n pin] ws [IH1 IH2]]; split.
  - intros s _. split; [exact I | reflexivity].
  - intros s e _ _. split; [exact I | reflexivity].
  - intros s Halt.
    apply alternating_inv in Halt as (Hlt & -> & Halt').
    rewrite starts_skip by apply flip_neq. now apply IH2.
  - intros s e Hse Halt.
    apply alternating_inv in Halt as (Hlt & -> & Halt').
    replace (1 - (1 - p)) with p in * by lia.
    rewrite cycles_from_start, cycles_from_skip, starts_keep
      by apply flip_neq.
    destruct (IH1 n Halt') as [Hch Hsp].
    split.
    + cbn [chained c_start c_fall c_next]. repeat split; (lia || assumption).
    + cbn [map combine]. now rewrite Hsp.
Qed.

(** The same for all the edges of a signal. *)
Lemma cycles_chained (p n0 pin0 : Z) (ws : list wakeup) :
  p = 0 \/ p = 1 -> pin0 = 0 \/ pin0 = 1 ->
  alternating n0 pin0 ws ->
  chained (hd 0 (starts p ws)) (cycles_from p ws)
  /\ map cycle_span (cycles_from p ws)
     = combine (starts p ws) (tl (starts p ws)).
Proof.
  intros Hpbit Hbit Halt.
  destruct ws as [|[n1 p1] ws1]; [split; [exact I | reflexivity]|].
  apply alternating_inv in Halt as (Hlt1 & Hp1 & Halt1).
  destruct (Z.eq_dec p1 p) as [-> | Hne].
  - rewrite starts_keep. cbn [hd tl].
    now apply (proj1 (cycles_chained_from p ws1)).
  - rewrite starts_skip by assumption.
    destruct ws1 as [|[n2 p2] ws2]; [split; [exact I | reflexivity]|].
    apply alternating_inv in Halt1 as (Hlt2 & Hp2 & Halt2).
    assert (E : p2 = p) by lia. clear Hp2. subst p2.
    rewrite cycles_from_skip, starts_keep by assumption. cbn [hd tl].
    now apply (proj1 (cycles_chained_from p ws2)).
Qed.

Lemma chained_ordered (cs : list cycle) :
  forall s, chained s cs ->
            Forall (fun c => c_start c < c_fall c < c_next c) cs.
Proof.
  induction cs as [|c cs IH]; intros s H; constructor.
  - cbn [chained] in H. lia.
  - cbn [chained] in H. apply (IH (c_next c)). tauto.
Qed.

Lemma chained_contiguous (cs : list cycle) :
  forall s, chained s cs -> contiguous (map cycle_span cs).
Proof.
  induction cs as [|c cs IH]; intros s H k a b Ha Hb.
  - destruct k; discriminate.
  - cbn [chained] in H. destruct H as (_ & _ & Hcs).
    destruct k as [|k].
    + cbn [map nth_error] in Ha, Hb. injection Ha as <-.
      destruct cs as [|c' cs]; [discriminate|].
      cbn [map nth_error] in Hb. injection Hb as <-.
      cbn [chained] in Hcs. unfold cycle_span. cbn [fst snd]. tauto.
    + cbn [map nth_error] in Ha, Hb. apply (IH _ Hcs k a b Ha Hb).
Qed.

(** ** The records of the full cycles, stream by stream *)

Lemma annotations_duty (r f : Z) (cs : list cycle) :
  forall k a,
    annotations 0 (cycle_records r f k a cs)
    = map (fun c => (c_start c, c_next c,
                     [(Py.format_f 6 (ratio c * 100) ++ "%")%string])) cs.
Proof.
  induction cs as [|c cs IH]; intros k a; [reflexivity|].
  cbn [cycle_records]. unfold annotations in *.
  cbn [flat_map Z.eqb app map]. now rewrite IH.
Qed.

Lemma annotations_period (r f : Z) (cs : list cycle) :
  forall k a,
    annotations 1 (cycle_records r f k a cs)
    = map (fun c => (c_start c, c_next c,
                     [Pwm.period_s (inject_Z (period c) / inject_Z r)])) cs.
Proof.
  induction cs as [|c cs IH]; intros k a; [reflexivity|].
  cbn [cycle_records]. unfold annotations in *.
  cbn [flat_map Z.eqb Pos.eqb app map]. now rewrite IH.
Qed.

Lemma metas_nth (r f : Z) (cs : list cycle) :
  Forall (fun c => 0 < period c) cs ->
  forall k a i c,
    nth_error cs i = Some c ->
    exists v,
      nth_error (metas (cycle_records r f k a cs)) i
      = Some (f, c_next c, v)
      /\ v == (a + Qsum (map percent (firstn (S i) cs)))
              / inject_Z (k + Z.of_nat (S i)).
Proof.
  induction 1 as [|c0 cs Hc0 Hcs IH]; intros k a i c Hi.
  - destruct i; discriminate.
  - assert (Hpct : ratio c0 * 100 == percent c0)
      by (apply (ratio_scaled (duty c0) (period c0) 100 Hc0)).
    cbn [cycle_records]. unfold metas in *. cbn [flat_map app].
    destruct i as [|i].
    + injection Hi as <-. eexists. split; [reflexivity|].
      cbn [firstn map Qsum fold_right]. rewrite Hpct.
      change (Z.of_nat 1) with 1. now rewrite Qplus_0_r.
    + cbn [nth_error] in Hi |- *.
      destruct (IH (k + 1) (a + ratio c0 * 100)%Q i c Hi) as (v & Hv & Heq).
      exists v. split; [exact Hv|].
      rewrite Heq. cbn [firstn map]. unfold Qsum. cbn [fold_right].
      fold (Qsum (map percent (firstn (S i) cs))).
      rewrite Hpct.
      replace (k + 1 + Z.of_nat (S i)) with (k + Z.of_nat (S (S i))) by lia.
      now rewrite Qplus_assoc.
Qed.

Lemma metas_length (r f : Z) (cs : list cycle) :
  forall k a, List.length (metas (cycle_records r f k a cs)) = List.length cs.
Proof.
  induction cs as [|c cs IH]; intros k a; [reflexivity|].
  cbn [cycle_records]. unfold metas in *. cbn [flat_map app List.length].
  now rewrite IH.
Qed.

(** ** Claims about one measurement *)




(** ** The period text *)

Section PeriodText.

Local Open Scope Q_scope.






End PeriodText.


(** ** Decoding without a sample rate *)

(** C3 (the duty-cycle machine misses the check).  Run without sample rate
    metadata, or with a sample rate of zero, the PWM decoder does not refuse
    to start: it consumes edges up to the end of the first full cycle, emits
    the duty-cycle annotation and the binary record of that cycle, and only
    then fails, on the expression that needs the rate, with an
    [AttributeError] or a [ZeroDivisionError] instead of a configuration
    error. *)
Theorem pwm_run_without_samplerate :
  Pwm.run None Pwm.active_high wave
  = ([Annotation 2 6 0 ["75.000000%"%string]; Binary 0 0 0 [192]],
     Raised AttributeError)
  /\ Pwm.run (Some 0) Pwm.active_high wave
     = ([Annotation 2 6 0 ["75.000000%"%string]; Binary 0 0 0 [192]],
        Raised ZeroDivisionError).
Proof. split; vm_compute; reflexivity. Qed.

(** The framed-symbol machine does check: without a sample rate, with a rate
    of zero or with a rate that is no multiple of the library's, [decode]
    raises before its first wait, whatever the samples, and emits nothing. *)
Lemma irmp_rejects_bad_rate {L} {lib : IrIrmp.IrmpLibrary L}
      (d : IrIrmp.Decoder L) (pol : IrIrmp.polarity) (samples : list bool) :
  IrIrmp.lib_rate d <> 0 ->
  (IrIrmp.samplerate d = None ->
   IrIrmp.decode d pol samples = ([], Raised AttributeError))
  /\ (IrIrmp.samplerate d = Some 0 ->
      IrIrmp.decode d pol samples = ([], Raised SamplerateError))
  /\ (forall rate,
         IrIrmp.samplerate d = Some rate ->
         rate mod IrIrmp.lib_rate d <> 0 ->
         IrIrmp.decode d pol samples = ([], Raised SamplerateError)).
Proof.
  intros Hlib. apply Z.eqb_neq in Hlib.
  unfold IrIrmp.decode. repeat split.
  - intros ->. reflexivity.
  - intros ->. reflexivity.
  - intros rate -> Hmod. apply Z.eqb_neq in Hmod.
    cbn [number]. rewrite bind_ret, Hlib, Hmod.
    now destruct (rate =? 0).
Qed.

(** ** Periodic square waves *)

Lemma edges_from_idle (b : bool) (k : nat) (rest : list bool) :
  forall pos,
    edges_from b pos (List.repeat b k ++ rest)
    = edges_from b (pos + Z.of_nat k) rest.
Proof.
  induction k as [|k IH]; intros pos.
  - cbn [List.repeat app]. f_equal. lia.
  - cbn [List.repeat app edges_from]. rewrite Bool.eqb_reflx, IH.
    f_equal. lia.
Qed.

Lemma edges_from_pulse (a : bool) (k : nat) (rest : list bool) (pos : Z) :
  (0 < k)%nat ->
  edges_from (negb a) pos (List.repeat a k ++ rest)
  = (pos, Z.b2z a) :: edges_from a (pos + Z.of_nat k) rest.
Proof.
  destruct k as [|k]; [lia|]. intros _.
  cbn [List.repeat app edges_from].
  replace (Bool.eqb a (negb a)) with false by now destruct a.
  rewrite edges_from_idle. do 2 f_equal. lia.
Qed.

Lemma periods_edges (a : bool) (hi lo : nat) :
  (0 < hi)%nat -> (0 < lo)%nat ->
  forall n pos,
    edges_from (negb a) pos (periods a hi lo n ++ [a])
    = wave_edges (Z.b2z a) pos (Z.of_nat hi) (Z.of_nat lo) n.
Proof.
  intros Hhi Hlo. induction n as [|n IH]; intros pos.
  - cbn [periods app edges_from wave_edges].
    replace (Bool.eqb a (negb a)) with false by now destruct a.
    reflexivity.
  - cbn [periods wave_edges]. rewrite <- !app_assoc.
    rewrite edges_from_pulse by assumption.
    pose proof (edges_from_pulse (negb a) lo
                  (periods a hi lo n ++ [a]) (pos + Z.of_nat hi) Hlo) as E.
    rewrite Bool.negb_involutive in E. rewrite E.
    replace (Z.b2z (negb a)) with (1 - Z.b2z a) by now destruct a.
    rewrite IH. reflexivity.
Qed.

Lemma wave_edges_cycles (p hi lo : Z) (n : nat) :
  forall pos,
    cycles_from p (wave_edges p pos hi lo n) = wave_cycles pos hi lo n.
Proof.
  induction n as [|n IH]; intros pos; [reflexivity|].
  cbn [wave_edges wave_cycles]. rewrite <- IH.
  destruct n as [|n]; cbn [wave_edges].
  - rewrite cycles_from_start. reflexivity.
  - rewrite cycles_from_start, cycles_from_skip by lia. reflexivity.
Qed.

(** A square wave of [n] periods has exactly [n] full cycles, each with
    duty [hi] and period [hi + lo], one after the other from the first
    start edge at sample [lead] on. *)
Lemma square_wave_cycles (pol : Pwm.polarity) (lead hi lo n : nat) :
  (0 < lead)%nat -> (0 < hi)%nat -> (0 < lo)%nat ->
  full_cycles pol (square_wave pol lead hi lo n)
  = wave_cycles (Z.of_nat lead) (Z.of_nat hi) (Z.of_nat lo) n
  /\ List.length (full_cycles pol (square_wave pol lead hi lo n)) = n
  /\ Forall (fun c => duty c = Z.of_nat hi
                      /\ period c = Z.of_nat hi + Z.of_nat lo)
            (full_cycles pol (square_wave pol lead hi lo n)).
Proof.
  intros Hlead Hhi Hlo.
  assert (E : full_cycles pol (square_wave pol lead hi lo n)
              = wave_cycles (Z.of_nat lead) (Z.of_nat hi) (Z.of_nat lo) n).
  { unfold full_cycles, square_wave.
    destruct lead as [|lead]; [lia|].
    cbn [List.repeat app wait_edges].
    rewrite edges_from_idle, periods_edges by assumption.
    replace (Z.b2z (active_level pol)) with (edge_of pol) by now destruct pol.
    rewrite wave_edges_cycles. f_equal. lia. }
  rewrite E. split; [reflexivity|]. clear E.
  generalize (Z.of_nat lead) as pos.
  induction n as [|n IH]; intros pos; cbn [wave_cycles List.length].
  - split; [reflexivity | constructor].
  - destruct (IH (pos + Z.of_nat hi + Z.of_nat lo)) as [Hlen Hall].
    split; [now rewrite Hlen|].
    constructor; [|exact Hall].
    unfold duty, period. cbn [c_start c_fall c_next]. lia.
Qed.

(** ** Claims about whole runs of the duty-cycle machine *)

Lemma full_cycles_chained (pol : Pwm.polarity) (samples : list bool) :
  chained (first_start_edge pol samples) (full_cycles pol samples)
  /\ map cycle_span (full_cycles pol samples)
     = combine (start_edges pol samples) (tl (start_edges pol samples)).
Proof.
  destruct (wait_edges_bits samples) as (pin0 & Hbit & Halt).
  apply (cycles_chained (edge_of pol) 0 pin0); try assumption.
  apply edge_of_bit.
Qed.

Lemma full_cycles_period (pol : Pwm.polarity) (samples : list bool) :
  Forall (fun c => 0 < period c) (full_cycles pol samples).
Proof.
  destruct (full_cycles_chained pol samples) as [Hch _].
  apply chained_ordered in Hch.
  eapply Forall_impl; [|exact Hch].
  intros c Hc. cbv beta in Hc. unfold period. lia.
Qed.




Lemma duty_spans (r f : Z) (cs : list cycle) (k : Z) (a : Q) :
  map span (annotations 0 (cycle_records r f k a cs)) = map cycle_span cs.
Proof. rewrite annotations_duty, map_map. reflexivity. Qed.

Lemma period_spans (r f : Z) (cs : list cycle) (k : Z) (a : Q) :
  map span (annotations 1 (cycle_records r f k a cs)) = map cycle_span cs.
Proof. rewrite annotations_period, map_map. reflexivity. Qed.

(** C10.  In a run with a sample rate, the period annotations span, cycle by
    cycle, the same sample ranges as the duty-cycle annotations; these
    ranges are the pairs of consecutive start-polarity edges of the signal,
    so each one runs from the previous start edge to the current one; every
    range has start < end; and each range starts at the sample where the
    range of the cycle before it ended. *)
Theorem annotation_ranges (rate : Z) (pol : Pwm.polarity)
        (samples : list bool) :
  0 < rate ->
  let outs := emitted (Pwm.run (Some rate) pol samples) in
  let edges := start_edges pol samples in
  map span (annotations 1 outs) = map span (annotations 0 outs)
  /\ map span (annotations 0 outs) = combine edges (tl edges)
  /\ Forall (fun r => fst r < snd r) (map span (annotations 0 outs))
  /\ contiguous (map span (annotations 0 outs)).
Proof.
  intros Hrate outs edges.
  destruct (run_cycles rate pol samples) as [d' Hrun]; [lia|].
  destruct (full_cycles_chained pol samples) as [Hch Hsp].
  subst outs edges. rewrite Hrun. cbn [emitted fst].
  rewrite duty_spans, period_spans.
  split; [reflexivity|]. split; [exact Hsp|]. split.
  - apply chained_ordered in Hch. apply Forall_map.
    eapply Forall_impl; [|exact Hch].
    intros c Hc. cbv beta in Hc. unfold cycle_span. cbn [fst snd]. lia.
  - exact (chained_contiguous _ _ Hch).
Qed.

Lemma annotation_ranges_witness :
  map span (annotations 1 (emitted (Pwm.run (Some 1000) Pwm.active_high wave)))
  = [(2, 6); (6, 10); (10, 12)].
Proof.
  pose proof (annotation_ranges 1000 Pwm.active_high wave ltac:(lia)) as H.
  exact (eq_trans (proj1 H) (proj1 (proj2 H))).
Defined.

(** ** The binary records, whatever the configuration *)

Lemma emitted_bind {A B} (m : M A) (f : A -> M B) :
  emitted (bind m f)
  = emitted m ++ match result m with
                 | Returned a => emitted (f a)
                 | Raised _ => []
                 end.
Proof.
  destruct m as [out [a | e]]; unfold bind, emitted, result; cbn [fst snd].
  - now destruct (f a).
  - now rewrite app_nil_r.
Qed.









(** ** The first edge *)

Lemma alternating_after (n pin : Z) (ws : list wakeup) :
  alternating n pin ws -> forall w, In w ws -> n < fst w.
Proof.
  induction 1 as [|n pin n' ws Hlt Halt IH]; intros w Hw; [destruct Hw|].
  destruct Hw as [<- | Hw]; [exact Hlt|].
  specialize (IH w Hw). lia.
Qed.

Lemma starts_in (p s : Z) (ws : list wakeup) :
  In s (starts p ws) -> exists w, In w ws /\ fst w = s.
Proof.
  unfold starts. intros H. apply in_map_iff in H as (w & Hw & Hin).
  apply filter_In in Hin as [Hin _]. now exists w.
Qed.

Lemma records_annotation_in (r f : Z) (cs : list cycle) :
  forall k a ss es cls texts,
    In (Annotation ss es cls texts) (cycle_records r f k a cs) ->
    exists c, In c cs /\ ss = c_start c /\ es = c_next c.
Proof.
  induction cs as [|c cs IH]; intros k a ss es cls texts H; [destruct H|].
  cbn [cycle_records] in H.
  destruct H as [H | [H | [H | [H | H]]]]; try discriminate H.
  - injection H as <- <- _ _. exists c. repeat split. now left.
  - injection H as <- <- _ _. exists c. repeat split. now left.
  - destruct (IH _ _ _ _ _ _ H) as (c' & Hc' & Hss & Hes).
    exists c'. repeat split; try assumption. now right.
Qed.

Lemma chained_in (cs : list cycle) :
  forall s c, chained s cs -> In c cs ->
              s <= c_start c /\ c_start c < c_next c.
Proof.
  induction cs as [|c0 cs IH]; intros s c Hch Hin; [destruct Hin|].
  cbn [chained] in Hch. destruct Hch as (Hs & Hord & Hcs).
  destruct Hin as [<- | Hin]; [lia|].
  destruct (IH _ _ Hcs Hin). lia.
Qed.

(** C6.  When the first edge of the signal does not have the start
    polarity, the run is the run over the edges after it: the edge is
    discarded and measurement begins at the next edge.  Nothing is emitted
    unless the signal has two start-polarity edges; every annotation, of a
    duty cycle or of a period, ends at or after the second start-polarity
    edge, starts at or after the first one, which comes after the discarded
    edge, and covers a non-empty range. *)
Theorem first_edge_discarded (rate : Z) (pol : Pwm.polarity)
        (samples : list bool) (n0 pin0 : Z) (ws : list wakeup) :
  0 < rate ->
  wait_edges samples = (n0, pin0) :: ws ->
  pin0 <> edge_of pol ->
  let m := Pwm.run (Some rate) pol samples in
  m = Pwm.decode (Pwm.configure (Some rate) pol) ws
  /\ ((List.length (start_edges pol samples) < 2)%nat -> emitted m = [])
  /\ forall ss es cls texts,
      In (Annotation ss es cls texts) (emitted m) ->
      ss < es
      /\ exists s0 s1 rest,
          start_edges pol samples = s0 :: s1 :: rest
          /\ n0 < s0 /\ s0 <= ss /\ s1 <= es.
Proof.
  intros Hrate Hws Hpin m.
  destruct (wait_edges_bits samples) as (pin & Hbit & Halt).
  rewrite Hws in Halt.
  apply alternating_inv in Halt as (Hlt0 & Hpin0 & Halt0).
  pose proof (edge_of_bit pol) as Hpol.
  assert (Hcfg : Pwm.startedge (Pwm.configure (Some rate) pol) = edge_of pol)
    by now destruct pol.
  split; [|split].
  - subst m. unfold Pwm.run. rewrite Hws. cbn [Pwm.decode]. rewrite Hcfg.
    replace (pin0 =? edge_of pol) with false
      by (symmetry; now apply Z.eqb_neq).
    cbn [negb].
    destruct ws as [|[n2 p2] ws2]; [reflexivity|].
    apply alternating_inv in Halt0 as (_ & Hp2 & _).
    cbn [Pwm.decode]. rewrite Hcfg.
    replace (p2 =? edge_of pol) with true
      by (symmetry; apply Z.eqb_eq; lia).
    reflexivity.
  - intros Hlen.
    destruct (run_cycles rate pol samples) as [d' Hrun]; [lia|].
    destruct (full_cycles_chained pol samples) as [_ Hsp].
    subst m. rewrite Hrun. cbn [emitted fst].
    destruct (start_edges pol samples) as [|s0 [|s1 rest]];
      try (cbn [List.length] in Hlen; lia).
    all: apply map_eq_nil in Hsp; now rewrite Hsp.
  - intros ss es cls texts Hin.
    destruct (run_cycles rate pol samples) as [d' Hrun]; [lia|].
    destruct (full_cycles_chained pol samples) as [Hch Hsp].
    subst m. rewrite Hrun in Hin. cbn [emitted fst] in Hin.
    apply records_annotation_in in Hin as (c & Hc & -> & ->).
    unfold first_start_edge in Hch.
    assert (Hedges : forall s, In s (start_edges pol samples) -> n0 < s).
    { intros s Hs. unfold start_edges in Hs. rewrite Hws in Hs.
      rewrite starts_skip in Hs by assumption.
      apply starts_in in Hs as (w & Hw & <-).
      exact (alternating_after _ _ _ Halt0 w Hw). }
    destruct (full_cycles pol samples) as [|c0 cs]; [destruct Hc|].
    destruct (start_edges pol samples) as [|s0 [|s1 rest]];
      try discriminate Hsp.
    cbn [map combine tl hd] in Hsp, Hch. injection Hsp as Hs0 Hs1 _.
    cbn [chained] in Hch. destruct Hch as (_ & Hord & Hcs).
    split.
    + destruct Hc as [<- | Hc]; [lia|].
      destruct (chained_in _ _ _ Hcs Hc). lia.
    + exists s0, s1, rest. split; [reflexivity|].
      split; [apply Hedges; now left|].
      destruct Hc as [<- | Hc]; [lia|].
      destruct (chained_in _ _ _ Hcs Hc). lia.
Qed.

Lemma first_edge_discarded_witness :
  Pwm.run (Some 1000) Pwm.active_high idle_high_wave
  = Pwm.decode (Pwm.configure (Some 1000) Pwm.active_high)
      [(4, 1); (7, 0); (8, 1); (9, 0)]
  /\ annotations 0 (emitted (Pwm.run (Some 1000) Pwm.active_high idle_high_wave))
     = [(4, 8, ["75.000000%"%string])].
Proof.
  split.
  - exact (proj1 (first_edge_discarded 1000 Pwm.active_high idle_high_wave
                    2 0 [(4, 1); (7, 0); (8, 1); (9, 0)]
                    ltac:(lia) eq_refl ltac:(discriminate))).
  - reflexivity.
Defined.

(** ** The framed-symbol machine: rendering a frame *)

Import IrIrmp IrmpSpec.

Lemma flag_txts_words (rep rel : bool) :
  flag_txts rep rel = ret (flag_words rep rel).
Proof. destruct rep, rel; reflexivity. Qed.

Lemma putframe_record {L} {lib : IrmpLibrary L} (d : Decoder L)
      (data : ProtocolResult) (factor : Z) :
  rate_factor d = Some factor ->
  putframe d data = ([frame_record factor data], Returned tt).
Proof.
  intros H. unfold putframe, frame_record.
  rewrite H. cbn [number]. rewrite bind_ret, flag_txts_words, bind_ret.
  destruct (repeat data), (release data); reflexivity.
Qed.

(** C8.  For a frame with repeat set and release clear, the flag list of
    every zoom level is made of that level's repeat word alone: the word
    sits at index 0 and the level's release word is absent.  Each of the
    five texts of the annotation that has a flag field shows the repeat word
    of the level it refers to. *)
Theorem repeat_flag_rendering {L} {lib : IrmpLibrary L} (d : Decoder L)
        (data : ProtocolResult) (factor : Z) :
  rate_factor d = Some factor ->
  repeat data = true ->
  release data = false ->
  (forall zoom,
      (zoom < List.length rep_txts)%nat ->
      exists flags,
        flags_at (repeat data) (release data) zoom = ret flags
        /\ nth_error flags 0 = nth_error rep_txts zoom
        /\ ~ In (nth zoom rel_txts ""%string) flags)
  /\ flag_txts (repeat data) (release data) = ret rep_txts
  /\ exists txts,
      putframe d data
      = ([Annotation (start data * factor) (end_ data * factor) 0 txts],
         Returned tt)
      /\ forall i t,
          nth_error (tiers data) i = Some t ->
          nth_error txts i
          = Some match snd t with
                 | Some zoom => (fst t ++ nth zoom rep_txts "")%string
                 | None => fst t
                 end.
Proof.
  intros Hf Hrep Hrel. rewrite Hrep, Hrel. split; [|split].
  - intros zoom Hz. cbn [rep_txts List.length] in Hz.
    destruct zoom as [|[|[|zoom]]]; try lia.
    all: eexists; split; [reflexivity|]; split; [reflexivity|].
    all: intros [H | []]; discriminate H.
  - reflexivity.
  - rewrite (putframe_record d data factor Hf). unfold frame_record.
    rewrite Hrep, Hrel.
    eexists. split; [reflexivity|].
    intros i t Hi. rewrite nth_error_map, Hi. reflexivity.
Qed.

Lemma repeat_flag_rendering_witness :
  flag_txts true false = ret ["repeat"; "rep"; "r"]%string
  /\ emitted (putframe sample_decoder sample_frame)
     = [Annotation 20 80 0
          ["Protocol: NEC (2), Address 0x00ff, Command: 0x1234, Flags: repeat";
           "P: NEC (2), Addr: 0xff, Cmd: 0x1234, Flg: rep";
           "P: 2 A: 0xff C: 0x1234 F: rep"; "C:1234 A:ff r";
           "C:1234"]%string].
Proof.
  pose proof (repeat_flag_rendering sample_decoder sample_frame 2
                eq_refl eq_refl eq_refl) as H.
  split.
  - exact (proj1 (proj2 H)).
  - reflexivity.
Defined.

(** C2 (as the code has it).  For every frame rendered, the annotation has
    five texts, while the repeat and the release vocabulary have three
    entries each, one per zoom level of the flag text.  That is as many as
    the texts refer to: the flag indices the five texts use are 0, 1, 1 and
    2 (the last text has no flag field), each of them is below three, and
    each of the three levels is used. *)
Theorem flag_vocabularies {L} {lib : IrmpLibrary L} (d : Decoder L)
        (data : ProtocolResult) (factor : Z) :
  rate_factor d = Some factor ->
  exists txts flg,
    putframe d data
    = ([Annotation (start data * factor) (end_ data * factor) 0 txts],
       Returned tt)
    /\ flag_txts (repeat data) (release data) = ret flg
    /\ List.length txts = 5%nat
    /\ List.length rep_txts = 3%nat
    /\ List.length rel_txts = 3%nat
    /\ List.length flg = 3%nat
    /\ map snd (tiers data) = [Some 0; Some 1; Some 1; Some 2; None]%nat
    /\ (forall t zoom,
           In t (tiers data) -> snd t = Some zoom ->
           (zoom < List.length rep_txts)%nat)
    /\ (forall zoom,
           (zoom < List.length rep_txts)%nat ->
           exists t, In t (tiers data) /\ snd t = Some zoom).
Proof.
  intros Hf. rewrite (putframe_record d data factor Hf), flag_txts_words.
  unfold frame_record.
  eexists. eexists. split; [reflexivity|]. split; [reflexivity|].
  split; [reflexivity|]. split; [reflexivity|]. split; [reflexivity|].
  split; [reflexivity|]. split; [reflexivity|]. split.
  - intros t zoom Hin Hz. apply (in_map snd) in Hin. rewrite Hz in Hin.
    cbn [tiers map snd] in Hin. cbn [rep_txts List.length].
    repeat (destruct Hin as [Hin | Hin];
            [first [discriminate Hin | injection Hin as <-; lia]|]).
    destruct Hin.
  - intros zoom Hz. cbn [rep_txts List.length] in Hz.
    destruct zoom as [|[|[|zoom]]]; try lia.
    + exists (nth 0 (tiers data) (""%string, None)).
      split; [unfold tiers; cbn [nth In]; tauto | reflexivity].
    + exists (nth 1 (tiers data) (""%string, None)).
      split; [unfold tiers; cbn [nth In]; tauto | reflexivity].
    + exists (nth 3 (tiers data) (""%string, None)).
      split; [unfold tiers; cbn [nth In]; tauto | reflexivity].
Qed.

Lemma flag_vocabularies_witness :
  exists txts flg,
    putframe sample_decoder sample_frame = ([Annotation 20 80 0 txts], Returned tt)
    /\ flag_txts true false = ret flg
    /\ List.length txts = 5%nat
    /\ List.length rep_txts = 3%nat.
Proof.
  destruct (flag_vocabularies sample_decoder sample_frame 2 eq_refl)
    as (txts & flg & H1 & H2 & H3 & H4 & _).
  exists txts, flg. repeat split; assumption.
Defined.

(** C2 (as stated) fails on every frame: the vocabularies have three
    entries, the annotation has five texts. *)
Lemma vocabulary_shorter_than_tiers :
  exists txts,
    emitted (putframe sample_decoder sample_frame) = [Annotation 20 80 0 txts]
    /\ List.length txts = 5%nat
    /\ List.length rep_txts <> List.length txts
    /\ List.length rel_txts <> List.length txts.
Proof.
  eexists. split; [reflexivity|]. split; [reflexivity|].
  split; cbn; lia.
Qed.

(** ** The framed-symbol machine: decimation and time stamps *)

(** The wake-ups of the skip waits are the samples at the multiples of the
    skip count. *)
Lemma skips_from_nth (n : nat) (l : list bool) :
  (0 < n)%nat ->
  forall c pos i,
    nth_error (skips_from n c pos l) i
    = option_map (fun b => (pos + Z.of_nat (c + i * n), Z.b2z b))
        (nth_error l (c + i * n)).
Proof.
  intros Hn. induction l as [|b l IH]; intros c pos i.
  - cbn [skips_from]. now rewrite !nth_error_nil.
  - cbn [skips_from]. destruct c as [|c].
    + destruct i as [|i].
      * cbn. f_equal. f_equal. lia.
      * cbn [nth_error]. rewrite IH.
        replace (0 + S i * n)%nat with (S (Nat.pred n + i * n)) by lia.
        cbn [nth_error].
        destruct (nth_error l (Nat.pred n + i * n)); [|reflexivity].
        cbn [option_map]. f_equal. f_equal. lia.
    + rewrite IH. cbn [Nat.add nth_error].
      destruct (nth_error l (c + i * n)); [|reflexivity].
      cbn [option_map]. f_equal. f_equal. lia.
Qed.

Lemma wait_skips_nth (factor : Z) (samples : list bool) (i : nat) :
  0 < factor ->
  nth_error (wait_skips factor samples) i
  = option_map (fun b => (Z.of_nat i * factor, Z.b2z b))
      (nth_error samples (i * Z.to_nat factor)).
Proof.
  intros H. unfold wait_skips.
  rewrite skips_from_nth by lia. cbn [Nat.add].
  destruct (nth_error samples (i * Z.to_nat factor)); [|reflexivity].
  cbn [option_map]. f_equal. f_equal. lia.
Qed.

(** The loop feeds every wake-up's bit to the library and emits one scaled
    annotation per frame the library reports. *)
Lemma irmp_loop {L} {lib : IrmpLibrary L} (pol : polarity) (factor : Z)
      (ws : list wakeup) :
  forall d : Decoder L,
    rate_factor d = Some factor ->
    active d = Some match pol with active_low => 0 | active_high => 1 end ->
    let fed := feed (irmp d) (map (fun w => level pol (snd w)) ws) in
    IrIrmp.loop d ws
    = (map (frame_record factor) (snd fed),
       Returned {| irmp := fst fed; lib_rate := lib_rate d;
                   samplerate := samplerate d;
                   rate_factor := rate_factor d; active := active d |}).
Proof.
  induction ws as [|[n ir] ws IH]; intros d Hf Ha.
  - destruct d; reflexivity.
  - cbn [IrIrmp.loop map feed snd fst]. rewrite Ha. cbn [number].
    rewrite bind_ret.
    assert (Hlevel : (if match pol with active_low => 0 | active_high => 1 end
                           =? 1 then 1 - ir else ir) = level pol ir)
      by now destruct pol.
    rewrite Hlevel.
    set (fed1 := add_one_sample (irmp d) (level pol ir)).
    match goal with
    | |- context [IrIrmp.loop ?d1 ws] =>
        specialize (IH d1 Hf eq_refl); cbv zeta in IH; rewrite IH
    end.
    cbn [irmp lib_rate samplerate rate_factor active].
    destruct (snd fed1).
    + rewrite (putframe_record _ _ factor) by exact Hf.
      reflexivity.
    + reflexivity.
Qed.



(** * Further properties of the decoders *)

Import RunSpec.

(** ** The duty-cycle machine without a usable sample rate *)

Lemma on_edge_no_rate (d : Pwm.Decoder) (n s e : Z) :
  Pwm.start_samplenum d = Some s ->
  Pwm.end_samplenum d = Some e ->
  Pwm.samplerate d = None \/ Pwm.samplerate d = Some 0 ->
  s <= e < n ->
  Pwm.on_edge d n (Pwm.startedge d)
  = ([Annotation s n 0
        [(Py.format_f 6 (ratio (mkCycle s e n) * 100) ++ "%")%string];
      Binary (Pwm.num_cycles d) (Pwm.num_cycles d) 0
        [256 * (e - s) / (n - s)]],
     Raised (rate_error (Pwm.samplerate d))).
Proof.
  intros Hs He Hr Hord.
  destruct (byte_of_ratio (e - s) (n - s)) as [Hb Hrange]; [lia|].
  unfold Pwm.on_edge, Pwm.putx, Pwm.putp, Pwm.putb, Pwm.truediv, Pwm.bytes1.
  pwm_fields. rewrite Z.eqb_refl, Hs, He.
  monad_steps.
  replace (n - s =? 0) with false by (symmetry; apply Z.eqb_neq; lia).
  monad_steps.
  rewrite Hb.
  replace (0 <=? 256 * (e - s) / (n - s)) with true
    by (symmetry; apply Z.leb_le; lia).
  replace (256 * (e - s) / (n - s) <? 256) with true
    by (symmetry; apply Z.ltb_lt; lia).
  cbn [andb]. monad_steps.
  destruct Hr as [-> | ->]; reflexivity.
Qed.

(** Without a usable rate the loop stops at the end of the first full
    cycle, if there is one. *)
Lemma loop_no_rate (p : Z) (rate : option Z) :
  rate = None \/ rate = Some 0 ->
  forall ws,
    (forall d s,
        Pwm.startedge d = p -> Pwm.start_samplenum d = Some s ->
        Pwm.samplerate d = rate -> alternating s p ws ->
        match cycles_from p ((s, p) :: ws) with
        | [] => exists d', Pwm.loop d ws = ([], Returned d')
        | c :: _ =>
            Pwm.loop d ws
            = ([Annotation (c_start c) (c_next c) 0
                  [(Py.format_f 6 (ratio c * 100) ++ "%")%string];
                Binary (Pwm.num_cycles d) (Pwm.num_cycles d) 0
                  [256 * duty c / period c]],
               Raised (rate_error rate))
        end)
    /\ (forall d s e,
           Pwm.startedge d = p -> Pwm.start_samplenum d = Some s ->
           Pwm.samplerate d = rate ->
           Pwm.end_samplenum d = Some e -> s < e ->
           alternating e (1 - p) ws ->
           match cycles_from p ((s, p) :: (e, 1 - p) :: ws) with
           | [] => exists d', Pwm.loop d ws = ([], Returned d')
           | c :: _ =>
               Pwm.loop d ws
               = ([Annotation (c_start c) (c_next c) 0
                     [(Py.format_f 6 (ratio c * 100) ++ "%")%string];
                   Binary (Pwm.num_cycles d) (Pwm.num_cycles d) 0
                     [256 * duty c / period c]],
                  Raised (rate_error rate))
           end).
Proof.
  intros Hrate. induction ws as [|[n pin] ws [IH1 IH2]]; split.
  - intros d s _ _ _ _. exists d. reflexivity.
  - intros d s e _ _ _ _ _ _. exists d. reflexivity.
  - intros d s Hp Hs Hr Halt.
    apply alternating_inv in Halt as (Hlt & -> & Halt').
    rewrite loop_cons, on_edge_falling by lia.
    rewrite bind_ret.
    match goal with
    | |- context [Pwm.loop ?d1 ws] =>
        specialize (IH2 d1 s n Hp Hs Hr eq_refl Hlt Halt')
    end.
    exact IH2.
  - intros d s e Hp Hs Hr He Hse Halt.
    apply alternating_inv in Halt as (Hlt & -> & Halt').
    subst p.
    replace (1 - (1 - Pwm.startedge d)) with (Pwm.startedge d) in * by lia.
    rewrite cycles_from_start.
    rewrite loop_cons.
    rewrite (on_edge_no_rate d n s e) by (try assumption; try lia; now rewrite Hr).
    rewrite Hr. reflexivity.
Qed.

Lemma decode_no_rate (d : Pwm.Decoder) (p n0 pin0 : Z) (ws : list wakeup) :
  Pwm.startedge d = p ->
  Pwm.samplerate d = None \/ Pwm.samplerate d = Some 0 ->
  p = 0 \/ p = 1 -> pin0 = 0 \/ pin0 = 1 ->
  alternating n0 pin0 ws ->
  match cycles_from p ws with
  | [] => exists d', Pwm.decode d ws = ([], Returned d')
  | c :: _ =>
      Pwm.decode d ws
      = ([Annotation (c_start c) (c_next c) 0
            [(Py.format_f 6 (ratio c * 100) ++ "%")%string];
          Binary (Pwm.num_cycles d) (Pwm.num_cycles d) 0
            [256 * duty c / period c]],
         Raised (rate_error (Pwm.samplerate d)))
  end.
Proof.
  intros Hp Hrate Hpbit Hbit Halt.
  destruct ws as [|[n1 p1] ws1]; [exists d; reflexivity|].
  apply alternating_inv in Halt as (Hlt1 & Hp1 & Halt1).
  cbn [Pwm.decode]. rewrite Hp.
  destruct (Z.eqb_spec p1 p) as [-> | Hne]; cbn [negb].
  - exact (proj1 (loop_no_rate p (Pwm.samplerate d) Hrate ws1)
             (Pwm.begin_at d n1) n1 Hp eq_refl eq_refl Halt1).
  - destruct ws1 as [|[n2 p2] ws2]; [exists d; reflexivity|].
    apply alternating_inv in Halt1 as (Hlt2 & Hp2 & Halt2).
    assert (E : p2 = p) by lia. clear Hp2. subst p2.
    rewrite cycles_from_skip by assumption.
    exact (proj1 (loop_no_rate p (Pwm.samplerate d) Hrate ws2)
             (Pwm.begin_at d n2) n2 Hp eq_refl eq_refl Halt2).
Qed.

Lemma configure_fields (rate : option Z) (pol : Pwm.polarity) :
  Pwm.startedge (Pwm.configure rate pol) = edge_of pol
  /\ Pwm.samplerate (Pwm.configure rate pol) = rate
  /\ Pwm.num_cycles (Pwm.configure rate pol) = 0.
Proof. destruct rate, pol; repeat split. Qed.

Lemma run_no_rate (rate : option Z) (pol : Pwm.polarity)
      (samples : list bool) :
  rate = None \/ rate = Some 0 ->
  match full_cycles pol samples with
  | [] => exists d', Pwm.run rate pol samples = ([], Returned d')
  | c :: _ =>
      0 < period c
      /\ Pwm.run rate pol samples
         = ([Annotation (c_start c) (c_next c) 0
               [(Py.format_f 6 (ratio c * 100) ++ "%")%string];
             Binary 0 0 0 [256 * duty c / period c]],
            Raised (rate_error rate))
  end.
Proof.
  intros Hrate.
  destruct (wait_edges_bits samples) as (pin0 & Hbit & Halt).
  destruct (configure_fields rate pol) as (Hp & Hr & Hk).
  pose proof (decode_no_rate (Pwm.configure rate pol) (edge_of pol) 0 pin0
                (wait_edges samples) Hp
                ltac:(rewrite Hr; exact Hrate)
                (edge_of_bit pol) Hbit Halt) as H.
  pose proof (full_cycles_period pol samples) as Hper.
  unfold Pwm.run, full_cycles in *.
  destruct (cycles_from (edge_of pol) (wait_edges samples)) as [|c cs];
    [exact H|].
  rewrite H, Hr, Hk. split; [now inversion Hper | reflexivity].
Qed.



(** X2.  Whatever the configuration and the samples, a run of the
    duty-cycle machine raises nothing but the exception of the missing or
    zero sample rate, and raises it exactly when the rate is unusable and
    the signal has a full cycle.  In particular the subtractions never meet
    [None] (no [TypeError]), the period is never zero and the byte is always
    in range (no [ValueError]). *)
Theorem pwm_run_exceptions (rate : option Z) (pol : Pwm.polarity)
        (samples : list bool) :
  match result (Pwm.run rate pol samples) with
  | Returned _ =>
      (exists r, rate = Some r /\ r <> 0) \/ full_cycles pol samples = []
  | Raised e =>
      e = rate_error rate /\ (rate = None \/ rate = Some 0)
      /\ full_cycles pol samples <> []
  end.
Proof.
  assert (Hbad : rate = None \/ rate = Some 0 ->
                 match result (Pwm.run rate pol samples) with
                 | Returned _ => full_cycles pol samples = []
                 | Raised e =>
                     e = rate_error rate /\ full_cycles pol samples <> []
                 end).
  { intros Hrate. pose proof (run_no_rate rate pol samples Hrate) as H.
    destruct (full_cycles pol samples) as [|c cs].
    - destruct H as [d' ->]. reflexivity.
    - destruct H as [_ ->]. cbn [result snd]. split; [reflexivity|].
      discriminate. }
  destruct rate as [r|].
  - destruct (Z.eq_dec r 0) as [-> | Hr].
    + specialize (Hbad (or_intror eq_refl)).
      destruct (result (Pwm.run (Some 0) pol samples)).
      * now right.
      * destruct Hbad as [-> Hne]. repeat split; [now right | exact Hne].
    + destruct (run_cycles r pol samples Hr) as [d' ->].
      cbn [result snd]. left. now exists r.
  - specialize (Hbad (or_introl eq_refl)).
    destruct (result (Pwm.run None pol samples)).
    + now right.
    + destruct Hbad as [-> Hne]. repeat split; [now left | exact Hne].
Qed.

(** ** The binary and the meta records of a run *)

Lemma binaries_nth (r f : Z) (cs : list cycle) :
  forall k a i c,
    nth_error cs i = Some c ->
    nth_error (binaries (cycle_records r f k a cs)) i
    = Some (k + Z.of_nat i, k + Z.of_nat i,
            [Py.int_of_float (ratio c * 256)]).
Proof.
  induction cs as [|c0 cs IH]; intros k a i c Hi.
  - destruct i; discriminate.
  - cbn [cycle_records]. unfold binaries in *. cbn [flat_map app].
    destruct i as [|i].
    + injection Hi as <-. cbn [nth_error]. do 3 f_equal; lia.
    + cbn [nth_error] in Hi |- *. rewrite (IH _ _ _ _ Hi).
      do 3 f_equal; lia.
Qed.

Lemma binaries_length (r f : Z) (cs : list cycle) :
  forall k a,
    List.length (binaries (cycle_records r f k a cs)) = List.length cs.
Proof.
  induction cs as [|c cs IH]; intros k a; [reflexivity|].
  cbn [cycle_records]. unfold binaries in *. cbn [flat_map app List.length].
  now rewrite IH.
Qed.

Lemma full_cycles_ordered (pol : Pwm.polarity) (samples : list bool) :
  Forall (fun c => c_start c < c_fall c < c_next c)
         (full_cycles pol samples).
Proof.
  destruct (full_cycles_chained pol samples) as [Hch _].
  exact (chained_ordered _ _ Hch).
Qed.

(** X3.  Whatever the configuration, the i-th binary record of a run
    belongs to the i-th full cycle of the signal: that cycle has
    0 < duty < period, and the payload is the single byte
    (256 * duty) div period, the largest v with v / 256 <= duty / period. *)
Theorem binary_payloads (rate : option Z) (pol : Pwm.polarity)
        (samples : list bool) (i : nat) (ss es : Z) (payload : list Z) :
  nth_error (binaries (emitted (Pwm.run rate pol samples))) i
  = Some (ss, es, payload) ->
  exists c,
    nth_error (full_cycles pol samples) i = Some c
    /\ 0 < duty c < period c
    /\ payload = [256 * duty c / period c]
    /\ (256 * duty c / period c) * period c <= 256 * duty c
       < (256 * duty c / period c + 1) * period c.
Proof.
  intros Hi.
  pose proof (full_cycles_ordered pol samples) as Hord.
  assert (Hc : forall c, nth_error (full_cycles pol samples) i = Some c ->
                         payload = [256 * duty c / period c] ->
                         exists c0,
                           nth_error (full_cycles pol samples) i = Some c0
                           /\ 0 < duty c0 < period c0
                           /\ payload = [256 * duty c0 / period c0]
                           /\ (256 * duty c0 / period c0) * period c0
                              <= 256 * duty c0
                              < (256 * duty c0 / period c0 + 1) * period c0).
  { intros c Hnth Hp. exists c.
    assert (Hin : In c (full_cycles pol samples))
      by (eapply nth_error_In; exact Hnth).
    rewrite Forall_forall in Hord. specialize (Hord c Hin).
    assert (Hd : 0 < duty c < period c) by (unfold duty, period; lia).
    pose proof (Z.mul_div_le (256 * duty c) (period c) ltac:(lia)).
    pose proof (Z.mul_succ_div_gt (256 * duty c) (period c) ltac:(lia)).
    repeat split; try assumption; lia. }
  assert (Hcase : (exists r, rate = Some r /\ r <> 0)
                  \/ rate = None \/ rate = Some 0).
  { destruct rate as [r|]; [|now right; left].
    destruct (Z.eq_dec r 0) as [-> | Hr]; [now right; right|].
    left. now exists r. }
  destruct Hcase as [(r & -> & Hr) | Hbad].
  - destruct (run_cycles r pol samples Hr) as [d' Hrun].
    rewrite Hrun in Hi. cbn [emitted fst] in Hi.
    assert (Hlt : (i < List.length (full_cycles pol samples))%nat).
    { rewrite <- (binaries_length r (first_start_edge pol samples)
                    (full_cycles pol samples) 0 0%Q).
      apply nth_error_Some. rewrite Hi. discriminate. }
    destruct (nth_error (full_cycles pol samples) i) as [c|] eqn:Hnth;
      [|apply nth_error_None in Hnth; lia].
    rewrite (binaries_nth _ _ _ _ _ _ _ Hnth) in Hi.
    injection Hi as _ _ <-.
    apply (Hc c eq_refl). f_equal.
    assert (Hin : In c (full_cycles pol samples))
      by (eapply nth_error_In; exact Hnth).
    rewrite Forall_forall in Hord. specialize (Hord c Hin).
    apply byte_of_ratio. unfold duty, period. lia.
  - pose proof (run_no_rate rate pol samples Hbad) as H.
    destruct (full_cycles pol samples) as [|c cs] eqn:Hcs.
    + destruct H as [d' Hrun]. rewrite Hrun in Hi.
      destruct i; discriminate Hi.
    + destruct H as [_ Hrun]. rewrite Hrun in Hi.
      cbn [emitted fst binaries flat_map app] in Hi.
      destruct i as [|[|i]]; try discriminate Hi.
      injection Hi as _ _ <-. now apply (Hc c).
Qed.

Lemma binary_payloads_witness :
  exists c,
    nth_error (full_cycles Pwm.active_high wave) 1 = Some c
    /\ 0 < duty c < period c
    /\ [64] = [256 * duty c / period c]
    /\ (256 * duty c / period c) * period c <= 256 * duty c
       < (256 * duty c / period c + 1) * period c.
Proof.
  exact (binary_payloads (Some 1000) Pwm.active_high wave 1 1 1 [64]
           eq_refl).
Defined.

Section AverageBounds.

Local Open Scope Q_scope.

Lemma percent_bounds (c : cycle) :
  (0 < duty c < period c)%Z -> 0 < percent c /\ percent c < 100.
Proof.
  intros H. unfold percent.
  assert (Hp : (0 < inject_Z (period c))%Q)
    by (change 0%Q with (inject_Z 0); rewrite <- Zlt_Qlt; lia).
  split.
  - apply Qlt_shift_div_l; [exact Hp|]. rewrite Qmult_0_l.
    change 0%Q with (inject_Z 0). rewrite <- Zlt_Qlt. lia.
  - apply Qlt_shift_div_r; [exact Hp|].
    change 100%Q with (inject_Z 100). rewrite <- inject_Z_mult, <- Zlt_Qlt.
    lia.
Qed.

Lemma Qsum_bounds (l : list Q) :
  Forall (fun q => 0 < q /\ q < 100) l ->
  l <> [] ->
  0 < Qsum l /\ Qsum l < 100 * inject_Z (Z.of_nat (List.length l)).
Proof.
  induction 1 as [|q l [Hq0 Hq1] Hl IH]; intros Hne; [congruence|].
  cbn [Qsum fold_right List.length]. fold (Qsum l).
  rewrite Nat2Z.inj_succ, <- Z.add_1_r, inject_Z_plus.
  destruct l as [|q' l].
  - cbn [Qsum fold_right List.length]. change (inject_Z (Z.of_nat 0)) with 0%Q.
    rewrite Qplus_0_r. split; [exact Hq0|].
    rewrite Qplus_0_l. change (inject_Z 1) with 1%Q. now rewrite Qmult_1_r.
  - destruct IH as [IH0 IH1]; [discriminate|]. split.
    + apply Qlt_trans with (0 + Qsum (q' :: l))%Q.
      * now rewrite Qplus_0_l.
      * now apply Qplus_lt_l.
    + rewrite Qmult_plus_distr_r, (Qplus_comm q).
      change (inject_Z 1) with 1%Q. rewrite Qmult_1_r.
      apply Qplus_lt_le_compat; [exact IH1 | now apply Qlt_le_weak].
Qed.

Lemma Forall_prefix {A} (P : A -> Prop) (l : list A) :
  Forall P l -> forall n, Forall P (firstn n l).
Proof.
  induction 1 as [|a l Ha Hl IH]; intros [|n]; cbn [firstn];
    constructor; auto.
Qed.

(** X4.  With a sample rate, the running average a run reports in its meta
    records always lies strictly between 0 and 100, as does the percentage
    of every cycle: an edge-driven measurement never sees an empty or a full
    duty cycle. *)
Theorem average_within_bounds (rate : Z) (pol : Pwm.polarity)
        (samples : list bool) (ss es : Z) (v : Q) :
  rate <> 0%Z ->
  In (ss, es, v) (metas (emitted (Pwm.run (Some rate) pol samples))) ->
  0 < v /\ v < 100
  /\ Forall (fun c => 0 < percent c /\ percent c < 100)
       (full_cycles pol samples).
Proof.
  intros Hrate Hin.
  assert (Hpct : Forall (fun c => 0 < percent c /\ percent c < 100)
                   (full_cycles pol samples)).
  { pose proof (full_cycles_ordered pol samples) as Hord.
    eapply Forall_impl; [|exact Hord].
    intros c Hc. cbv beta in Hc. apply percent_bounds.
    unfold duty, period. lia. }
  destruct (run_cycles rate pol samples Hrate) as [d' Hrun].
  rewrite Hrun in Hin. cbn [emitted fst] in Hin.
  apply In_nth_error in Hin as [i Hi].
  assert (Hlt : (i < List.length (full_cycles pol samples))%nat).
  { rewrite <- (metas_length rate (first_start_edge pol samples)
                  (full_cycles pol samples) 0 0%Q).
    apply nth_error_Some. rewrite Hi. discriminate. }
  destruct (nth_error (full_cycles pol samples) i) as [c|] eqn:Hnth;
    [|apply nth_error_None in Hnth; lia].
  destruct (metas_nth rate (first_start_edge pol samples)
              (full_cycles pol samples) (full_cycles_period pol samples)
              0 0%Q i c Hnth) as (v' & Hv' & Heq).
  rewrite Hv' in Hi. injection Hi as _ _ <-.
  set (l := map percent (firstn (S i) (full_cycles pol samples))) in *.
  assert (Hlen : List.length l = S i)
    by (unfold l; rewrite length_map; apply firstn_length_le; lia).
  destruct (Qsum_bounds l) as [H0 H1].
  { unfold l. apply Forall_map. apply Forall_prefix. exact Hpct. }
  { intros E. rewrite E in Hlen. discriminate Hlen. }
  rewrite Hlen in H1.
  assert (Hn : (0 < inject_Z (0 + Z.of_nat (S i)))%Q)
    by (change 0%Q with (inject_Z 0); rewrite <- Zlt_Qlt; lia).
  split; [|split; [|exact Hpct]]; rewrite Heq, Qplus_0_l.
  - apply Qlt_shift_div_l; [exact Hn|]. now rewrite Qmult_0_l.
  - apply Qlt_shift_div_r; [exact Hn|]. exact H1.
Qed.

End AverageBounds.

Lemma average_within_bounds_witness :
  (0 < 1600 # 32)%Q /\ (1600 # 32 < 100)%Q.
Proof.
  destruct (average_within_bounds 1000 Pwm.active_high wave 2 10 (1600 # 32)
              ltac:(lia) ltac:(vm_compute; right; left; reflexivity))
    as (H0 & H1 & _).
  split; assumption.
Defined.

(** ** What the sample rate changes *)




(** ** Symmetries of the duty-cycle machine *)

Lemma edges_from_invert (l : list bool) :
  forall prev pos,
    edges_from (negb prev) pos (invert l)
    = map flip_edge (edges_from prev pos l).
Proof.
  unfold invert.
  induction l as [|b l IH]; intros prev pos; [reflexivity|].
  cbn [map edges_from].
  replace (Bool.eqb (negb b) (negb prev)) with (Bool.eqb b prev)
    by now destruct b, prev.
  destruct (Bool.eqb b prev).
  - apply IH.
  - cbn [map]. rewrite IH. unfold flip_edge at 2. cbn [fst snd].
    do 2 f_equal. now destruct b.
Qed.

Lemma wait_edges_invert (samples : list bool) :
  wait_edges (invert samples) = map flip_edge (wait_edges samples).
Proof.
  destruct samples as [|b l]; [reflexivity|].
  apply (edges_from_invert l b 1).
Qed.

Ltac flip_leaf := unfold on_result; monad_steps; reflexivity.

Lemma on_edge_flip (d : Pwm.Decoder) (n pin : Z) :
  Pwm.on_edge (flip_startedge d) n (1 - pin)
  = on_result flip_startedge (Pwm.on_edge d n pin).
Proof.
  unfold Pwm.on_edge, Pwm.putx, Pwm.putp, Pwm.putb, Pwm.truediv, Pwm.bytes1.
  unfold flip_startedge. pwm_fields.
  replace (1 - pin =? 1 - Pwm.startedge d) with (pin =? Pwm.startedge d)
    by (destruct (Z.eqb_spec pin (Pwm.startedge d));
        symmetry; [apply Z.eqb_eq | apply Z.eqb_neq]; lia).
  destruct (pin =? Pwm.startedge d); [|flip_leaf].
  destruct (Pwm.start_samplenum d) as [s|]; [|flip_leaf].
  destruct (Pwm.end_samplenum d) as [e|]; [|flip_leaf].
  monad_steps.
  destruct (n - s =? 0); [flip_leaf|].
  monad_steps.
  match goal with
  | |- context [(0 <=? ?v) && (?v <? 256)] =>
      destruct ((0 <=? v) && (v <? 256)); [|flip_leaf]
  end.
  destruct (Pwm.samplerate d) as [r|]; [|flip_leaf].
  monad_steps.
  destruct (r =? 0); [flip_leaf|].
  destruct (Pwm.first_samplenum d) as [f|]; flip_leaf.
Qed.

Lemma on_result_bind {A B} (f : A -> A) (g : B -> B) (m : M A)
      (k k' : A -> M B) :
  (forall a, k' (f a) = on_result g (k a)) ->
  bind (on_result f m) k' = on_result g (bind m k).
Proof.
  intros H. destruct m as [out [a | e]]; unfold on_result, bind;
    cbn [emitted result fst snd]; [|reflexivity].
  rewrite H. unfold on_result. destruct (k a) as [out' r].
  reflexivity.
Qed.

Lemma loop_flip (ws : list wakeup) :
  forall d,
    Pwm.loop (flip_startedge d) (map flip_edge ws)
    = on_result flip_startedge (Pwm.loop d ws).
Proof.
  induction ws as [|[n pin] ws IH]; intros d; [reflexivity|].
  cbn [map]. unfold flip_edge at 1. cbn [fst snd].
  rewrite !loop_cons, on_edge_flip.
  apply on_result_bind. exact IH.
Qed.

Lemma decode_flip (d : Pwm.Decoder) (ws : list wakeup) :
  Pwm.decode (flip_startedge d) (map flip_edge ws)
  = on_result flip_startedge (Pwm.decode d ws).
Proof.
  destruct ws as [|[n1 p1] ws1]; [reflexivity|].
  cbn [map]. unfold flip_edge at 1. cbn [fst snd Pwm.decode].
  replace (1 - p1 =? Pwm.startedge (flip_startedge d))
    with (p1 =? Pwm.startedge d)
    by (unfold flip_startedge; pwm_fields;
        destruct (Z.eqb_spec p1 (Pwm.startedge d));
        symmetry; [apply Z.eqb_eq | apply Z.eqb_neq]; lia).
  destruct (p1 =? Pwm.startedge d); cbn [negb].
  - apply (loop_flip ws1 (Pwm.begin_at d n1)).
  - destruct ws1 as [|[n2 p2] ws2]; [reflexivity|].
    cbn [map]. unfold flip_edge at 1. cbn [fst snd].
    apply (loop_flip ws2 (Pwm.begin_at d n2)).
Qed.

(** X6.  Inverting the signal and choosing the other polarity changes
    nothing: the run emits the same records and ends the same way, with the
    same exception if it raises; the final states differ in [startedge]
    only.  This holds for every configuration, with or without a sample
    rate. *)
Theorem polarity_symmetry (rate : option Z) (pol : Pwm.polarity)
        (samples : list bool) :
  Pwm.run rate (opposite pol) (invert samples)
  = on_result flip_startedge (Pwm.run rate pol samples)
  /\ emitted (Pwm.run rate (opposite pol) (invert samples))
     = emitted (Pwm.run rate pol samples).
Proof.
  assert (E : Pwm.run rate (opposite pol) (invert samples)
              = on_result flip_startedge (Pwm.run rate pol samples)).
  { unfold Pwm.run. rewrite wait_edges_invert.
    replace (Pwm.configure rate (opposite pol))
      with (flip_startedge (Pwm.configure rate pol))
      by now destruct rate, pol.
    apply decode_flip. }
  split; [exact E|]. rewrite E. reflexivity.
Qed.

Lemma edges_from_shift (k : Z) (l : list bool) :
  forall prev pos,
    edges_from prev (pos + k) l = map (shift_edge k) (edges_from prev pos l).
Proof.
  induction l as [|b l IH]; intros prev pos; [reflexivity|].
  cbn [edges_from].
  replace (pos + k + 1) with (pos + 1 + k) by lia.
  destruct (Bool.eqb b prev); [apply IH|].
  cbn [map]. now rewrite IH.
Qed.

Lemma wait_edges_delay (k : nat) (samples : list bool) :
  wait_edges (delay k samples)
  = map (shift_edge (Z.of_nat k)) (wait_edges samples).
Proof.
  destruct samples as [|b l]; [reflexivity|].
  cbn [delay wait_edges]. rewrite edges_from_idle. apply edges_from_shift.
Qed.

Lemma cycles_from_shift (p k : Z) (ws : list wakeup) :
  cycles_from p (map (shift_edge k) ws)
  = map (shift_cycle k) (cycles_from p ws).
Proof.
  induction ws as [|[s ps] ws IH]; [reflexivity|].
  destruct ws as [|[e pe] [|[s' ps'] ws]]; try reflexivity.
  cbn [map] in IH |- *. unfold shift_edge at 1 2 3. cbn [fst snd].
  cbn [cycles_from].
  cbn [cycles_from] in IH. unfold shift_edge at 1 2 in IH.
  cbn [fst snd] in IH.
  destruct ((ps =? p) && (ps' =? p)).
  - cbn [map]. f_equal. exact IH.
  - exact IH.
Qed.

Lemma starts_shift (p k : Z) (ws : list wakeup) :
  starts p (map (shift_edge k) ws) = map (fun s => s + k) (starts p ws).
Proof.
  unfold starts.
  induction ws as [|[n pin] ws IH]; [reflexivity|].
  cbn [map filter]. unfold shift_edge at 1. cbn [fst snd].
  destruct (pin =? p); [cbn [map fst]; f_equal|]; exact IH.
Qed.

Lemma shift_cycle_lengths (k : Z) (c : cycle) :
  duty (shift_cycle k c) = duty c /\ period (shift_cycle k c) = period c.
Proof. unfold duty, period, shift_cycle. cbn [c_start c_fall c_next]. lia. Qed.

Lemma cycle_records_shift (r f k : Z) (cs : list cycle) :
  forall k0 a,
    cycle_records r (f + k) k0 a (map (shift_cycle k) cs)
    = map (shift_output k) (cycle_records r f k0 a cs).
Proof.
  induction cs as [|c cs IH]; intros k0 a; [reflexivity|].
  cbn [map cycle_records shift_output].
  destruct (shift_cycle_lengths k c) as [Hd Hp].
  unfold ratio. rewrite Hd, Hp, IH. reflexivity.
Qed.

(** X7.  Delaying the signal by k samples (k more copies of its first
    sample in front) delays the output and changes nothing else: with a
    sample rate, every annotation and meta record of the run moves by k
    samples with its texts and values unchanged, while the binary records
    stay exactly as they were, positions included, since they sit at the
    cycle counter. *)
Theorem delay_invariance (rate : Z) (pol : Pwm.polarity) (k : nat)
        (samples : list bool) :
  rate <> 0 ->
  emitted (Pwm.run (Some rate) pol (delay k samples))
  = map (shift_output (Z.of_nat k))
        (emitted (Pwm.run (Some rate) pol samples))
  /\ binaries (emitted (Pwm.run (Some rate) pol (delay k samples)))
     = binaries (emitted (Pwm.run (Some rate) pol samples)).
Proof.
  intros Hrate.
  destruct (run_cycles rate pol samples Hrate) as [d Hrun].
  destruct (run_cycles rate pol (delay k samples) Hrate) as [d' Hrun'].
  assert (Hcs : full_cycles pol (delay k samples)
                = map (shift_cycle (Z.of_nat k)) (full_cycles pol samples)).
  { unfold full_cycles. rewrite wait_edges_delay. apply cycles_from_shift. }
  assert (E : emitted (Pwm.run (Some rate) pol (delay k samples))
              = map (shift_output (Z.of_nat k))
                    (emitted (Pwm.run (Some rate) pol samples))).
  { rewrite Hrun, Hrun'. cbn [emitted fst]. rewrite Hcs.
    destruct (full_cycles_chained pol samples) as [_ Hsp].
    unfold first_start_edge, start_edges in *.
    rewrite wait_edges_delay, starts_shift.
    destruct (starts (edge_of pol) (wait_edges samples)) as [|s0 l].
    - apply map_eq_nil in Hsp. rewrite Hsp. reflexivity.
    - cbn [map hd]. apply cycle_records_shift. }
  split; [exact E|]. rewrite E.
  generalize (emitted (Pwm.run (Some rate) pol samples)) as outs.
  induction outs as [|o outs IH]; [reflexivity|].
  unfold binaries in *. cbn [map flat_map]. rewrite IH.
  now destruct o.
Qed.

Lemma delay_invariance_witness :
  emitted (Pwm.run (Some 1000) Pwm.active_high (delay 5 idle_high_wave))
  = [Annotation 9 13 0 ["75.000000%"%string]; Binary 0 0 0 [192];
     Annotation 9 13 1 ["4.0 ms"%string]; Meta 9 13 (300 # 4)].
Proof.
  exact (proj1 (delay_invariance 1000 Pwm.active_high 5 idle_high_wave
                  ltac:(lia))).
Defined.

(** ** Output that is out stays out *)

Lemma bind_assoc {A B C} (m : M A) (f : A -> M B) (g : B -> M C) :
  bind (bind m f) g = bind m (fun a => bind (f a) g).
Proof.
  destruct m as [out [a | e]]; unfold bind at 2 3; [|reflexivity].
  destruct (f a) as [out' [b | e]]; unfold bind.
  - destruct (g b) as [out'' r]. now rewrite app_assoc.
  - reflexivity.
Qed.

Lemma bind_raised {A B} (m : M A) (k : A -> M B) (e : exn) :
  result m = Raised e ->
  emitted (bind m k) = emitted m /\ result (bind m k) = Raised e.
Proof.
  destruct m as [out [a | e']]; cbn [result snd]; intros H;
    [discriminate|].
  injection H as ->. split; reflexivity.
Qed.

(** What a computation followed by another has emitted and how it ended,
    relative to the first one alone. *)
Lemma bind_extends {A B} (m : M A) (k : A -> M B) :
  (exists more, emitted (bind m k) = emitted m ++ more)
  /\ (forall e, result m = Raised e ->
                emitted (bind m k) = emitted m
                /\ result (bind m k) = Raised e).
Proof.
  split.
  - rewrite emitted_bind. eexists. reflexivity.
  - intros e. apply bind_raised.
Qed.

Lemma bind_ext {A B} (m : M A) (f g : A -> M B) :
  (forall a, f a = g a) -> bind m f = bind m g.
Proof.
  intros H. destruct m as [out [a | e]]; unfold bind; [|reflexivity].
  now rewrite H.
Qed.

Lemma pwm_loop_app (ws ws' : list wakeup) :
  forall d,
    Pwm.loop d (ws ++ ws') = bind (Pwm.loop d ws) (fun d' => Pwm.loop d' ws').
Proof.
  induction ws as [|[n pin] ws IH]; intros d.
  - cbn [app Pwm.loop]. now rewrite bind_ret.
  - cbn [app]. rewrite !loop_cons, bind_assoc.
    apply bind_ext. exact IH.
Qed.

Lemma edges_from_app (l l' : list bool) :
  forall prev pos,
    exists ws', edges_from prev pos (l ++ l') = edges_from prev pos l ++ ws'.
Proof.
  induction l as [|b l IH]; intros prev pos.
  - eexists. reflexivity.
  - cbn [app edges_from]. destruct (Bool.eqb b prev).
    + apply IH.
    + destruct (IH b (pos + 1)) as [ws' ->]. eexists. reflexivity.
Qed.

Lemma wait_edges_app (l l' : list bool) :
  exists ws', wait_edges (l ++ l') = wait_edges l ++ ws'.
Proof.
  destruct l as [|b l].
  - eexists. reflexivity.
  - apply (edges_from_app l l' b 1).
Qed.

Lemma pwm_decode_app (d : Pwm.Decoder) (ws ws' : list wakeup) :
  (exists more,
      emitted (Pwm.decode d (ws ++ ws')) = emitted (Pwm.decode d ws) ++ more)
  /\ (forall e, result (Pwm.decode d ws) = Raised e ->
                emitted (Pwm.decode d (ws ++ ws')) = emitted (Pwm.decode d ws)
                /\ result (Pwm.decode d (ws ++ ws')) = Raised e).
Proof.
  assert (Hsilent : forall m : M Pwm.Decoder,
             (exists more, emitted m = emitted (ret d) ++ more)
             /\ (forall e, result (ret d) = Raised e ->
                           emitted m = emitted (ret d)
                           /\ result m = Raised e)).
  { intros m. split; [now exists (emitted m) | discriminate]. }
  destruct ws as [|[n1 p1] ws1]; [apply Hsilent|].
  cbn [app Pwm.decode].
  destruct (negb (p1 =? Pwm.startedge d)).
  - destruct ws1 as [|[n2 p2] ws2]; [apply Hsilent|].
    cbn [app]. rewrite pwm_loop_app. apply bind_extends.
  - rewrite pwm_loop_app. apply bind_extends.
Qed.

(** X8.  The duty-cycle machine never takes back or changes what it has
    emitted: the records of a run over a stream are a prefix of the records
    of the run over any longer stream that begins with it, for every
    configuration; and when the shorter run has raised, the longer run
    emits the same records and raises the same exception. *)
Theorem pwm_output_is_prefix (rate : option Z) (pol : Pwm.polarity)
        (samples more_samples : list bool) :
  (exists more,
      emitted (Pwm.run rate pol (samples ++ more_samples))
      = emitted (Pwm.run rate pol samples) ++ more)
  /\ (forall e,
         result (Pwm.run rate pol samples) = Raised e ->
         emitted (Pwm.run rate pol (samples ++ more_samples))
         = emitted (Pwm.run rate pol samples)
         /\ result (Pwm.run rate pol (samples ++ more_samples)) = Raised e).
Proof.
  unfold Pwm.run.
  destruct (wait_edges_app samples more_samples) as [ws' ->].
  apply pwm_decode_app.
Qed.

Lemma pwm_output_is_prefix_witness :
  emitted (Pwm.run None Pwm.active_high (wave ++ idle_high_wave))
  = emitted (Pwm.run None Pwm.active_high wave)
  /\ result (Pwm.run None Pwm.active_high (wave ++ idle_high_wave))
     = Raised AttributeError.
Proof.
  exact (proj2 (pwm_output_is_prefix None Pwm.active_high wave
                  idle_high_wave) AttributeError eq_refl).
Defined.

Lemma skips_from_app (n : nat) (l l' : list bool) :
  forall c pos,
    exists ws', skips_from n c pos (l ++ l') = skips_from n c pos l ++ ws'.
Proof.
  induction l as [|b l IH]; intros c pos.
  - eexists. reflexivity.
  - cbn [app skips_from]. destruct c as [|c].
    + destruct (IH (Nat.pred n) (pos + 1)) as [ws' ->]. eexists. reflexivity.
    + apply IH.
Qed.

Lemma irmp_loop_app {L} {lib : IrmpLibrary L} (ws ws' : list wakeup) :
  forall d : Decoder L,
    IrIrmp.loop d (ws ++ ws')
    = bind (IrIrmp.loop d ws) (fun d' => IrIrmp.loop d' ws').
Proof.
  induction ws as [|[n ir] ws IH]; intros d.
  - cbn [app IrIrmp.loop]. now rewrite bind_ret.
  - cbn [app IrIrmp.loop]. rewrite bind_assoc.
    apply bind_ext. intros act. rewrite bind_assoc.
    apply bind_ext. intros _. apply IH.
Qed.

(** X9.  The framed-symbol machine never takes back what it has emitted
    either: for every library, configuration and polarity, the annotations
    of [decode] over a stream are a prefix of those over any longer stream
    that begins with it, and a run that fails to start fails the same way
    whatever the samples. *)
Theorem irmp_output_is_prefix {L} {lib : IrmpLibrary L} (d : Decoder L)
        (pol : polarity) (samples more_samples : list bool) :
  (exists more,
      emitted (decode d pol (samples ++ more_samples))
      = emitted (decode d pol samples) ++ more)
  /\ (forall e,
         result (decode d pol samples) = Raised e ->
         emitted (decode d pol (samples ++ more_samples))
         = emitted (decode d pol samples)
         /\ result (decode d pol (samples ++ more_samples)) = Raised e).
Proof.
  assert (Hsame : forall m : M (Decoder L),
             (exists more, emitted m = emitted m ++ more)
             /\ (forall e, result m = Raised e ->
                           emitted m = emitted m /\ result m = Raised e)).
  { intros m. split; [exists []; now rewrite app_nil_r | auto]. }
  unfold decode.
  destruct (samplerate d) as [rate|]; [|apply Hsame].
  cbn [number]. rewrite !bind_ret.
  destruct (rate =? 0); [apply Hsame|].
  destruct (lib_rate d =? 0); [apply Hsame|].
  destruct (negb (rate mod lib_rate d =? 0)); [apply Hsame|].
  unfold wait_skips.
  match goal with
  | |- context [skips_from ?n 0%nat 0 (samples ++ more_samples)] =>
      destruct (skips_from_app n samples more_samples 0%nat 0) as [ws' ->]
  end.
  rewrite irmp_loop_app. apply bind_extends.
Qed.

Lemma irmp_output_is_prefix_witness :
  emitted (run (mkToy 0 0) (Some 30000) active_low (ir_samples ++ ir_samples))
  = emitted (run (mkToy 0 0) (Some 30000) active_low ir_samples)
  /\ result (run (mkToy 0 0) (Some 30000) active_low
               (ir_samples ++ ir_samples))
     = Raised SamplerateError.
Proof.
  exact (proj2 (irmp_output_is_prefix
                  (configure (mkToy 0 0) (Some 30000)) active_low
                  ir_samples ir_samples) SamplerateError eq_refl).
Defined.

(** ** How a run of the framed-symbol machine can end *)



(** ** The texts of a frame *)

Lemma string_length_app (s t : string) :
  String.length (s ++ t) = (String.length s + String.length t)%nat.
Proof.
  induction s as [|a s IH]; [reflexivity|].
  cbn [String.append String.length]. now rewrite IH.
Qed.

Lemma zeros_length (n : nat) : String.length (Py.zeros n) = n.
Proof.
  induction n as [|n IH]; [reflexivity|].
  cbn [Py.zeros String.length]. now rewrite IH.
Qed.

Lemma zfill_length (width : nat) (s : string) :
  String.length (Py.zfill width s) = Nat.max width (String.length s).
Proof.
  unfold Py.zfill. rewrite string_length_app, zeros_length. lia.
Qed.

(** Zero padding to four digits never shortens a hexadecimal number. *)
Lemma format_0x_length (z : Z) :
  (String.length (Py.format_x z) <= String.length (Py.format_0x 4 z))%nat
  /\ (4 <= String.length (Py.format_0x 4 z))%nat.
Proof.
  unfold Py.format_x, Py.format_0x.
  destruct (z <? 0)%Z;
    rewrite ?string_length_app, ?zfill_length; cbn [String.length Nat.sub];
    lia.
Qed.

(** X11.  The flag field of a frame is never empty.  For each of the three
    zoom levels it reads "-" when neither flag is set, the level's repeat
    or release word when one flag is set, and both words, repeat first,
    separated by one space when both are set. *)
Theorem flag_text_table (rep rel : bool) :
  flag_txts rep rel
  = ret (map (fun zoom =>
                let rep_word := nth zoom rep_txts ""%string in
                let rel_word := nth zoom rel_txts ""%string in
                match rep, rel with
                | true, true => (rep_word ++ " " ++ rel_word)%string
                | true, false => rep_word
                | false, true => rel_word
                | false, false => "-"%string
                end) [0; 1; 2]%nat)
  /\ forall flg,
      flag_txts rep rel = ret flg ->
      List.length flg = List.length rep_txts
      /\ Forall (fun t => t <> ""%string) flg
      /\ (In "-"%string flg <-> rep = false /\ rel = false).
Proof.
  split; [destruct rep, rel; reflexivity|].
  intros flg H.
  destruct rep, rel; injection H as <-; cbn.
  all: split; [reflexivity|].
  all: split;
    [repeat (apply Forall_cons; [discriminate|]); apply Forall_nil|].
  all: split; [intros HIn | intros [H1 H2]].
  all: try discriminate H1; try discriminate H2.
  all: first [ split; reflexivity
             | now left
             | destruct HIn as [H | [H | [H | []]]]; discriminate H ].
Qed.

Lemma flag_text_table_witness :
  List.length ["repeat release"; "rep rel"; "r R"]%string
  = List.length rep_txts
  /\ Forall (fun t => t <> ""%string) ["repeat release"; "rep rel"; "r R"]%string.
Proof.
  destruct (proj2 (flag_text_table true true)
              ["repeat release"; "rep rel"; "r R"]%string eq_refl)
    as (H1 & H2 & _).
  split; assumption.
Defined.

Lemma flag_words_lengths (rep rel : bool) :
  exists f0 f1 f2,
    flag_words rep rel = [f0; f1; f2]
    /\ (String.length f2 <= String.length f1 <= String.length f0)%nat.
Proof.
  destruct rep, rel; do 3 eexists; (split; [reflexivity | cbn; lia]).
Qed.

(** X12.  The five texts of a frame's annotation are listed from the
    longest to the shortest: each text is strictly shorter than the one
    before it, for every protocol name, number, address, command and flag
    combination.  (The host picks the first text that fits the width it
    has.) *)
Theorem frame_texts_get_shorter {L} {lib : IrmpLibrary L} (d : Decoder L)
        (data : ProtocolResult) (factor : Z) :
  rate_factor d = Some factor ->
  exists t0 t1 t2 t3 t4,
    putframe d data
    = ([Annotation (start data * factor) (end_ data * factor) 0
          [t0; t1; t2; t3; t4]], Returned tt)
    /\ (String.length t4 < String.length t3 < String.length t2)%nat
    /\ (String.length t2 < String.length t1 < String.length t0)%nat.
Proof.
  intros Hf. rewrite (putframe_record d data factor Hf).
  unfold frame_record, tiers.
  destruct (flag_words_lengths (repeat data) (release data))
    as (f0 & f1 & f2 & -> & Hlen).
  cbn [map tier_text snd fst nth].
  do 5 eexists. split; [reflexivity|].
  destruct (format_0x_length (address data)) as [Ha _].
  destruct (format_0x_length (command data)) as [Hc _].
  rewrite !string_length_app. cbn [String.length]. lia.
Qed.

Lemma frame_texts_get_shorter_witness :
  exists t0 t1 t2 t3 t4,
    putframe sample_decoder sample_frame
    = ([Annotation (10 * 2) (40 * 2) 0 [t0; t1; t2; t3; t4]], Returned tt)
    /\ (String.length t4 < String.length t3 < String.length t2)%nat
    /\ (String.length t2 < String.length t1 < String.length t0)%nat.
Proof.
  exact (frame_texts_get_shorter sample_decoder sample_frame 2 eq_refl).
Defined.

(** ** What the framed-symbol machine looks at *)

Lemma skips_from_length (n : nat) (l : list bool) :
  forall c pos, (List.length (skips_from n c pos l) <= List.length l)%nat.
Proof.
  induction l as [|b l IH]; intros c pos; [cbn; lia|].
  cbn [skips_from List.length]. destruct c as [|c].
  - cbn [List.length]. specialize (IH (Nat.pred n) (pos + 1)). lia.
  - specialize (IH c (pos + 1)). lia.
Qed.

Lemma feed_count {L} {lib : IrmpLibrary L} (bits : list Z) :
  forall st : L,
    (List.length (snd (feed st bits)) <= List.length bits)%nat.
Proof.
  induction bits as [|b bits IH]; intros st; [cbn; lia|].
  cbn [feed snd List.length].
  specialize (IH (fst (add_one_sample st b))).
  destruct (snd (add_one_sample st b)); cbn [List.length]; lia.
Qed.

(** A run with a valid rate, in closed form. *)
Lemma irmp_run_frames {L} {lib : IrmpLibrary L} (fresh : L) (rate : Z)
      (pol : polarity) (samples : list bool) :
  0 < get_sample_rate fresh -> 0 < rate ->
  rate mod get_sample_rate fresh = 0 ->
  let factor := rate / get_sample_rate fresh in
  0 < factor
  /\ exists d',
      run fresh (Some rate) pol samples
      = (map (frame_record factor)
           (snd (feed (reset_state fresh)
                   (map (fun w => level pol (snd w))
                        (wait_skips factor samples)))),
         Returned d')
      /\ irmp d'
         = fst (feed (reset_state fresh)
                  (map (fun w => level pol (snd w))
                       (wait_skips factor samples))).
Proof.
  intros Hlib Hrate Hmod factor.
  assert (Hmul : rate = factor * get_sample_rate fresh)
    by (unfold factor; rewrite Z.mul_comm; apply Z.div_exact; lia).
  split; [nia|].
  unfold run, configure, metadata, init, decode.
  cbn [samplerate lib_rate irmp rate_factor active number].
  rewrite bind_ret.
  replace (rate =? 0) with false by (symmetry; apply Z.eqb_neq; lia).
  replace (get_sample_rate fresh =? 0) with false
    by (symmetry; apply Z.eqb_neq; lia).
  rewrite Hmod. cbn [Z.eqb negb].
  rewrite int_of_float_quotient by lia. fold factor.
  rewrite (irmp_loop pol factor) by reflexivity.
  cbv zeta. cbn [irmp]. eexists. split; reflexivity.
Qed.

(** X13.  The framed-symbol machine looks at one sample in rate_factor and
    at nothing else: two streams that agree at the multiples of
    rate_factor, whatever they hold in between, give the same run,
    annotation for annotation and with the same final library state. *)
Theorem irmp_ignores_skipped_samples {L} {lib : IrmpLibrary L} (fresh : L)
        (rate : Z) (pol : polarity) (samples samples' : list bool) :
  0 < get_sample_rate fresh -> 0 < rate ->
  rate mod get_sample_rate fresh = 0 ->
  (forall i,
      nth_error samples (i * Z.to_nat (rate / get_sample_rate fresh))
      = nth_error samples' (i * Z.to_nat (rate / get_sample_rate fresh))) ->
  run fresh (Some rate) pol samples = run fresh (Some rate) pol samples'.
Proof.
  intros Hlib Hrate Hmod Hsame.
  assert (Hmul : rate = rate / get_sample_rate fresh * get_sample_rate fresh)
    by (rewrite Z.mul_comm; apply Z.div_exact; lia).
  assert (Hpos : 0 < rate / get_sample_rate fresh) by nia.
  assert (E : wait_skips (rate / get_sample_rate fresh) samples
              = wait_skips (rate / get_sample_rate fresh) samples').
  { apply nth_error_ext. intros i.
    rewrite !wait_skips_nth by exact Hpos. now rewrite Hsame. }
  unfold run, configure, metadata, init, decode.
  cbn [samplerate lib_rate irmp rate_factor active number].
  rewrite !bind_ret.
  rewrite int_of_float_quotient by lia. now rewrite E.
Qed.

Lemma irmp_ignores_skipped_samples_witness :
  run (mkToy 0 0) (Some 40000) active_low ir_samples
  = run (mkToy 0 0) (Some 40000) active_low ir_samples_between.
Proof.
  apply (@irmp_ignores_skipped_samples toy_state toy_library (mkToy 0 0)
           40000 active_low ir_samples ir_samples_between);
    try reflexivity.
  intros i. do 8 (destruct i as [|i]; [reflexivity|]).
  change (Z.to_nat (40000 / get_sample_rate (mkToy 0 0))) with 2%nat.
  rewrite !(proj2 (nth_error_None _ _)); [reflexivity | |];
    cbn [List.length ir_samples ir_samples_between]; lia.
Defined.

(** X14.  With a valid rate, a run over n samples feeds exactly
    ceil(n / rate_factor) samples to the library, and emits at most one
    record per sample fed: one for each sample at which the library
    reported a frame.  Every record is an annotation of class 0 with five
    texts. *)
Theorem irmp_frame_count {L} {lib : IrmpLibrary L} (fresh : L) (rate : Z)
        (pol : polarity) (samples : list bool) :
  0 < get_sample_rate fresh -> 0 < rate ->
  rate mod get_sample_rate fresh = 0 ->
  let factor := rate / get_sample_rate fresh in
  let fed := Z.of_nat (List.length (wait_skips factor samples)) in
  let outs := emitted (run fresh (Some rate) pol samples) in
  (fed - 1) * factor < Z.of_nat (List.length samples) <= fed * factor
  /\ List.length outs
     = List.length
         (snd (feed (reset_state fresh)
                 (map (fun w => level pol (snd w))
                      (wait_skips factor samples))))
  /\ Z.of_nat (List.length outs) <= fed
  /\ Forall (fun o => exists ss es texts,
                 o = Annotation ss es 0 texts
                 /\ List.length texts = 5%nat) outs.
Proof.
  intros Hlib Hrate Hmod factor fed outs.
  destruct (irmp_run_frames fresh rate pol samples Hlib Hrate Hmod)
    as (Hpos & d' & Hrun & _).
  fold factor in Hpos, Hrun.
  subst outs. rewrite Hrun. cbn [emitted fst]. rewrite length_map.
  split; [|split; [reflexivity|split]].
  - subst fed. set (ws := wait_skips factor samples).
    assert (Hnone : nth_error ws (List.length ws) = None)
      by (apply nth_error_None; lia).
    unfold ws in Hnone at 1. rewrite wait_skips_nth in Hnone by exact Hpos.
    destruct (nth_error samples (List.length ws * Z.to_nat factor))
      eqn:E; [discriminate|].
    apply nth_error_None in E.
    pose proof (Z2Nat.id factor ltac:(lia)) as Hid.
    apply Nat2Z.inj_le in E. rewrite Nat2Z.inj_mul, Hid in E.
    split; [|exact E].
    destruct (List.length ws) as [|n] eqn:Hn; [lia|].
    assert (Hsome : nth_error ws n <> None)
      by (apply nth_error_Some; lia).
    unfold ws in Hsome. rewrite wait_skips_nth in Hsome by exact Hpos.
    destruct (nth_error samples (n * Z.to_nat factor)) eqn:E';
      [|now elim Hsome].
    assert (Hlt : (n * Z.to_nat factor < List.length samples)%nat)
      by (apply nth_error_Some; rewrite E'; discriminate).
    apply Nat2Z.inj_lt in Hlt. rewrite Nat2Z.inj_mul, Hid in Hlt.
    replace (Z.of_nat (S n) - 1) with (Z.of_nat n) by lia. exact Hlt.
  - subst fed.
    pose proof (feed_count (map (fun w => level pol (snd w))
                              (wait_skips factor samples))
                  (reset_state fresh)) as H.
    rewrite length_map in H. apply Nat2Z.inj_le. exact H.
  - apply Forall_map. apply Forall_forall. intros data _.
    unfold frame_record. do 3 eexists. split; [reflexivity|].
    now rewrite length_map.
Qed.

Lemma irmp_frame_count_witness :
  (8 - 1) * 2 < Z.of_nat (List.length ir_samples) <= 8 * 2
  /\ List.length (emitted (run (mkToy 0 0) (Some 40000) active_low ir_samples))
     = 1%nat.
Proof.
  pose proof (@irmp_frame_count toy_state toy_library (mkToy 0 0) 40000
                active_low ir_samples ltac:(reflexivity) ltac:(reflexivity)
                eq_refl) as H.
  split.
  - exact (proj1 H).
  - exact (proj1 (proj2 H)).
Defined.

(** ** The number in front of the unit *)

Section Mantissa.

Local Open Scope Q_scope.




End Mantissa.


(** ** The order of the records *)

Lemma cycle_records_order (r f : Z) (cs : list cycle) :
  forall k a i c,
    nth_error cs i = Some c ->
    exists pct byte txt v,
      nth_error (cycle_records r f k a cs) (4 * i)
      = Some (Annotation (c_start c) (c_next c) 0 [pct])
      /\ nth_error (cycle_records r f k a cs) (4 * i + 1)
         = Some (Binary (k + Z.of_nat i) (k + Z.of_nat i) 0 [byte])
      /\ nth_error (cycle_records r f k a cs) (4 * i + 2)
         = Some (Annotation (c_start c) (c_next c) 1 [txt])
      /\ nth_error (cycle_records r f k a cs) (4 * i + 3)
         = Some (Meta f (c_next c) v).
Proof.
  induction cs as [|c0 cs IH]; intros k a i c Hi.
  - destruct i; discriminate.
  - destruct i as [|i].
    + injection Hi as <-. cbn [cycle_records Nat.mul Nat.add nth_error].
      do 4 eexists. rewrite Z.add_0_r. repeat split.
    + cbn [nth_error] in Hi.
      destruct (IH (k + 1) (a + ratio c0 * 100)%Q i c Hi)
        as (pct & byte & txt & v & H0 & H1 & H2 & H3).
      exists pct, byte, txt, v.
      replace (4 * S i)%nat with (4 + 4 * i)%nat by lia.
      replace (k + Z.of_nat (S i)) with (k + 1 + Z.of_nat i) by lia.
      cbn [cycle_records]. cbn [Nat.add nth_error].
      repeat split; assumption.
Qed.

Lemma cycle_records_length (r f : Z) (cs : list cycle) :
  forall k a,
    List.length (cycle_records r f k a cs) = (4 * List.length cs)%nat.
Proof.
  induction cs as [|c cs IH]; intros k a; [reflexivity|].
  cbn [cycle_records List.length]. rewrite IH. lia.
Qed.

(** X16.  With a sample rate, a run emits four records per full cycle and
    nothing else, in the order of the [put] calls: the duty-cycle
    annotation, the binary record, the period annotation and the meta
    record of the first cycle, then those of the second one, and so on.
    The annotations and the meta record of a cycle all end at the edge that
    closes it. *)
Theorem records_in_cycle_order (rate : Z) (pol : Pwm.polarity)
        (samples : list bool) :
  rate <> 0 ->
  let outs := emitted (Pwm.run (Some rate) pol samples) in
  List.length outs = (4 * List.length (full_cycles pol samples))%nat
  /\ forall i c,
      nth_error (full_cycles pol samples) i = Some c ->
      exists pct byte txt v,
        nth_error outs (4 * i)
        = Some (Annotation (c_start c) (c_next c) 0 [pct])
        /\ nth_error outs (4 * i + 1)
           = Some (Binary (Z.of_nat i) (Z.of_nat i) 0 [byte])
        /\ nth_error outs (4 * i + 2)
           = Some (Annotation (c_start c) (c_next c) 1 [txt])
        /\ nth_error outs (4 * i + 3)
           = Some (Meta (first_start_edge pol samples) (c_next c) v).
Proof.
  intros Hrate outs. subst outs.
  destruct (run_cycles rate pol samples Hrate) as [d' ->].
  cbn [emitted fst]. split; [apply cycle_records_length|].
  intros i c Hi.
  exact (cycle_records_order rate (first_start_edge pol samples)
           (full_cycles pol samples) 0 0%Q i c Hi).
Qed.

Lemma records_in_cycle_order_witness :
  List.length (emitted (Pwm.run (Some 1000) Pwm.active_low idle_high_wave))
  = 8%nat.
Proof.
  exact (proj1 (records_in_cycle_order 1000 Pwm.active_low idle_high_wave
                  ltac:(lia))).
Defined.

(** ** Polarity of the framed-symbol machine *)

Lemma skips_from_invert_bits (pol : polarity) (n : nat) (l : list bool) :
  forall c pos,
    map (fun w => level (other_polarity pol) (snd w))
        (skips_from n c pos (invert l))
    = map (fun w => level pol (snd w)) (skips_from n c pos l).
Proof.
  unfold invert.
  induction l as [|b l IH]; intros c pos; [reflexivity|].
  cbn [map skips_from]. destruct c as [|c]; [|apply IH].
  cbn [map snd]. rewrite IH. f_equal.
  now destruct pol, b.
Qed.

(** X17.  For the framed-symbol machine too, inverting the signal and
    choosing the other polarity changes nothing: with a valid rate the
    library is fed the same bits, ends in the same state, and the run emits
    the same annotations. *)
Theorem irmp_polarity_symmetry {L} {lib : IrmpLibrary L} (fresh : L)
        (rate : Z) (pol : polarity) (samples : list bool) :
  0 < get_sample_rate fresh -> 0 < rate ->
  rate mod get_sample_rate fresh = 0 ->
  emitted (run fresh (Some rate) (other_polarity pol) (invert samples))
  = emitted (run fresh (Some rate) pol samples)
  /\ exists d1 d2,
      result (run fresh (Some rate) (other_polarity pol) (invert samples))
      = Returned d1
      /\ result (run fresh (Some rate) pol samples) = Returned d2
      /\ irmp d1 = irmp d2.
Proof.
  intros Hlib Hrate Hmod.
  destruct (irmp_run_frames fresh rate (other_polarity pol) (invert samples)
              Hlib Hrate Hmod) as (_ & d1 & Hrun1 & Hst1).
  destruct (irmp_run_frames fresh rate pol samples Hlib Hrate Hmod)
    as (_ & d2 & Hrun2 & Hst2).
  unfold wait_skips in *.
  rewrite skips_from_invert_bits in Hrun1, Hst1.
  rewrite Hrun1, Hrun2. cbn [emitted result fst snd].
  split; [reflexivity|].
  exists d1, d2. repeat split. now rewrite Hst1, Hst2.
Qed.

Lemma irmp_polarity_symmetry_witness :
  emitted (run (mkToy 0 0) (Some 40000) active_high (invert ir_samples))
  = emitted (run (mkToy 0 0) (Some 40000) active_low ir_samples).
Proof.
  exact (proj1 (@irmp_polarity_symmetry toy_state toy_library (mkToy 0 0)
                  40000 active_low ir_samples
                  ltac:(reflexivity) ltac:(reflexivity) eq_refl)).
Defined.
